(** * gotdlib client core: dispatcher, correlated Send, pending buffer,
      and the command helpers of extra.go

    Shallow embedding of [client/client.go] and [client/extra.go].

    Conventions.
    - A Go [string] and a Go [[]byte] are both byte sequences and are both
      represented by [string] (a list of 8-bit characters).
    - [int], [int64] and [time.Duration] values are integers in [Z]; no
      arithmetic of the embedded code can overflow.
    - A Go channel is represented by the sequence of values sent on it,
      oldest first.  Capacity, and therefore the waiting of a sender on a
      full channel, is not represented: a send statement that is reached is
      recorded.
    - [sync.Map] is a finite map ([gmap]).
    - A run-time panic (method call on a nil interface, failed type
      assertion) ends the function with the state reached so far. *)

From Stdlib Require Import ZArith String Ascii List Bool Lia DecimalString.
From stdpp Require Import base option list gmap strings.

Open Scope Z_scope.

(* ===================================================================== *)
(** ** Go library functions used by the sources                          *)
(* ===================================================================== *)

Module GoStrings.

(** [strings.HasPrefix s prefix]. *)
Fixpoint HasPrefix (s prefix : string) {struct prefix} : bool :=
  match prefix, s with
  | EmptyString, _ => true
  | String _ _, EmptyString => false
  | String a prefix', String b s' => Ascii.eqb a b && HasPrefix s' prefix'
  end.

(** [strings.Index s substr] (and [bytes.Index]): the position of the
    first occurrence of [substr] in [s], or [-1]. *)
Fixpoint Index (s substr : string) : Z :=
  if HasPrefix s substr then 0
  else match s with
       | EmptyString => -1
       | String _ s' =>
           let i := Index s' substr in
           if i <? 0 then -1 else i + 1
       end.

(** [len(s)]. *)
Definition len (s : string) : Z := Z.of_nat (String.length s).

(** The slice expressions [s[:i]] and [s[i:]]; the sources only use them
    with [0 <= i <= len(s)]. *)
Fixpoint take (n : nat) (s : string) : string :=
  match n, s with
  | O, _ => EmptyString
  | S _, EmptyString => EmptyString
  | S n', String a s' => String a (take n' s')
  end.

Fixpoint drop (n : nat) (s : string) : string :=
  match n, s with
  | O, _ => s
  | S _, EmptyString => EmptyString
  | S n', String _ s' => drop n' s'
  end.

Definition slice_to (s : string) (i : Z) : string := take (Z.to_nat i) s.
Definition slice_from (s : string) (i : Z) : string := drop (Z.to_nat i) s.

(** [bytes.Replace s old new n] for a non-empty [old]: the first [n]
    non-overlapping occurrences of [old] are replaced by [new]; all of
    them when [n < 0]. *)
Fixpoint replace_upto (n : nat) (s old new : string) : string :=
  match n with
  | O => s
  | S n' =>
      let j := Index s old in
      if j <? 0 then s
      else slice_to s j +:+ new
             +:+ replace_upto n' (slice_from s (j + len old)) old new
  end.

Definition Replace (s old new : string) (n : Z) : string :=
  if n <? 0 then replace_upto (S (String.length s)) s old new
  else replace_upto (Z.to_nat n) s old new.

(** [strconv.FormatInt i 10]. *)
Definition FormatInt10 (i : Z) : string := NilZero.string_of_int (Z.to_int i).

(** The one-character string holding a double quote, and a quoted word. *)
Definition dquote : string := String (Ascii.ascii_of_nat 34) EmptyString.
Definition quoted (s : string) : string := dquote +:+ s +:+ dquote.

End GoStrings.
Import GoStrings.

(* ===================================================================== *)
(** ** extra.go: the command helpers, in both versions of the file        *)
(* ===================================================================== *)

(** First version of extra.go. *)
Module ExtraA.
Section WithEntity.
(* [TextEntity] is declared elsewhere; [CheckCommand] never reads it. *)
Variable TextEntity : Type.

Definition IsCommand (text : string) : bool :=
  if negb (String.eqb text EmptyString) then
    match String.get 0 text with
    | Some c => if Ascii.eqb c "/" then true else false
    | None => false
    end
  else false.

Definition CheckCommand (text : string) (entities : list TextEntity) : string :=
  if IsCommand text then
    let i := Index text "@" in
    if negb (i =? -1) then slice_to text i
    else
      let i := Index text " " in
      if negb (i =? -1) then slice_to text i
      else text
  else EmptyString.

Definition CommandArgument (text : string) : string :=
  if IsCommand text then
    let i := Index text " " in
    if negb (i =? -1) then slice_from text (i + 1) else EmptyString
  else EmptyString.

End WithEntity.
End ExtraA.

(** Second version of extra.go. *)
Module ExtraB.
Section WithEntity.
Variable TextEntity : Type.

Definition IsCommand (text : string) : bool :=
  let i := Index text "/" in
  if i =? 0 then true else false.

Definition CheckCommand (text : string) (entities : list TextEntity) : string :=
  if IsCommand text then
    let cmd := EmptyString in
    let cmd := (let i := Index text " " in
                if negb (i =? -1) then slice_to text i else cmd) in
    let cmd := (let i := Index text "@" in
                if negb (i =? -1) then slice_to text i else cmd) in
    if String.eqb cmd EmptyString then text else cmd
  else EmptyString.

Definition CommandArgument (text : string) : string :=
  if IsCommand text then
    let i := Index text " " in
    if negb (i =? -1) then slice_from text (i + 1) else EmptyString
  else EmptyString.

End WithEntity.
End ExtraB.

(** The result of [CheckCommand] as the specification words it: for a
    command, the prefix before the first '@' if there is one, else the
    prefix before the first space if there is one, else the whole text; the
    empty string for anything that is not a command. *)
Definition CheckCommand_described (text : string) : string :=
  if HasPrefix text "/" then
    if 0 <=? Index text "@" then slice_to text (Index text "@")
    else if 0 <=? Index text " " then slice_to text (Index text " ")
    else text
  else EmptyString.

(* ===================================================================== *)
(** ** client.go: data                                                    *)
(* ===================================================================== *)

(** Go's [error] values met by [Send]: the one it creates itself with
    [errors.New], and those a decoder hands back, given by their message.
    [errors.New] returns a value distinct from every other error. *)
Inductive error :=
| errors_New (text : string)
| decoder_error (message : string).

(** A Go result pair [(value, err)] of a decoder: the value, or the error
    with its message. *)
Inductive result (A : Type) :=
| Ok (a : A)
| Err (message : string).
Arguments Ok {A} a.
Arguments Err {A} message.

(** [time.Duration] counts nanoseconds. *)
Definition Millisecond : Z := 1000000.
Definition Second : Z := 1000 * Millisecond.

(** Modelled from the spec: [Request] and [Response], which are declared
    with the transport, outside the two files embedded here: a type tag, a
    correlation id (empty on unsolicited updates) and a payload. *)
Record Request := {
  req_Type : string;
  req_Extra : string;
  req_Data : string
}.

Record Response := {
  resp_Type : string;
  resp_Extra : string;
  resp_Data : string
}.

Definition Request_set_Extra (req : Request) (extra : string) : Request :=
  {| req_Type := req_Type req; req_Extra := extra; req_Data := req_Data req |}.

Definition Response_set_Data (response : Response) (data : string) : Response :=
  {| resp_Type := resp_Type response; resp_Extra := resp_Extra response;
     resp_Data := data |}.

(** Modelled from the spec: the schema types [Message],
    [MessageContent] and [UpdateMessageSendSucceeded], which are generated
    code outside the two files embedded here; only the fields and methods
    that client.go uses. *)
Record MessageContent := { MessageContentType : string }.

Record Message := {
  Id : Z;
  Content : MessageContent
}.

Record UpdateMessageSendSucceeded := {
  Message_ : Message;
  OldMessageId : Z
}.

Definition TypeUpdateMessageSendSucceeded : string := "updateMessageSendSucceeded".

(** Modelled from the spec: the interface [Type] of decoded objects with
    its type-discriminator accessor [GetType], declared in the generated
    code.  A non-nil value is an object of the class
    [UpdateMessageSendSucceeded], or an object of any other class of the
    schema, given by its tag.  Every class has its own tag, so no other
    class answers [TypeUpdateMessageSendSucceeded]. *)
Inductive TypeObj :=
| AsUpdateMessageSendSucceeded (u : UpdateMessageSendSucceeded)
| OtherClass (tag : string)
    (other : Is_true (negb (String.eqb tag TypeUpdateMessageSendSucceeded))).

Definition GetType (typ : TypeObj) : string :=
  match typ with
  | AsUpdateMessageSendSucceeded _ => TypeUpdateMessageSendSucceeded
  | OtherClass tag _ => tag
  end.

(** The decoders, which live in the generated part of the package, are
    parameters of everything below. *)
Class Codec := {
  UnmarshalType : string -> result TypeObj;
  UnmarshalMessage : string -> result Message;
  UnmarshalUpdateMessageSendSucceeded : string -> result UpdateMessageSendSucceeded
}.

(** One send on a listener channel: by the dispatcher itself, or by a
    goroutine the dispatcher starts, which first sleeps [d] nanoseconds. *)
Inductive Delivery :=
| Sent (typ : TypeObj)
| SentAfter (d : Z) (typ : TypeObj).

Definition carried (d : Delivery) : TypeObj :=
  match d with
  | Sent typ => typ
  | SentAfter _ typ => typ
  end.

(** Modelled from the spec: the struct [Listener] and its method
    [IsActive], declared with the listener registry: an active flag, an
    optional type filter, a filtered channel and a raw channel, with the
    field names of the literals in [GetListener] and [AddEventReceiver].
    A nil channel and a nil [Filter] are [None]. *)
Record Listener := {
  isActive : bool;
  Updates : option (list Delivery);
  RawUpdates : option (list Delivery);
  Filter : option TypeObj
}.

Definition IsActive (listener : Listener) : bool := isActive listener.

Definition send_Updates (listener : Listener) (d : Delivery) : Listener :=
  {| isActive := isActive listener;
     Updates := (fun ch => ch ++ [d]) <$> Updates listener;
     RawUpdates := RawUpdates listener;
     Filter := Filter listener |}.

Definition send_RawUpdates (listener : Listener) (d : Delivery) : Listener :=
  {| isActive := isActive listener;
     Updates := Updates listener;
     RawUpdates := (fun ch => ch ++ [d]) <$> RawUpdates listener;
     Filter := Filter listener |}.

(** Modelled from the spec: the listener registry (listenerStore), whose
    source file is not part of the two files embedded here.  [Add] appends
    to the set, [Listeners] returns the current set, [gc] removes the
    entries whose active flag is false. *)
Module ListenerStore.
Definition t := list Listener.
Definition newListenerStore : t := [].
Definition Add (store : t) (listener : Listener) : t := store ++ [listener].
Definition Listeners (store : t) : list Listener := store.
Definition gc (store : t) : t := List.filter IsActive store.
End ListenerStore.

(** [Client], without [jsonClient] and [extraGenerator]: what they return
    enters the functions below as an argument. *)
Record Client := {
  responses : list Response;
  pendingResp : list Response;
  listenerStore : ListenerStore.t;
  catchersStore : gmap string (list Response);
  successMsgStore : gmap Z (list Response);
  updatesTimeout : Z;
  catchTimeout : Z;
  DisablePatch : bool
}.

Definition set_responses (v : list Response) (c : Client) : Client :=
  {| responses := v; pendingResp := pendingResp c; listenerStore := listenerStore c;
     catchersStore := catchersStore c; successMsgStore := successMsgStore c;
     updatesTimeout := updatesTimeout c; catchTimeout := catchTimeout c;
     DisablePatch := DisablePatch c |}.

Definition set_pendingResp (v : list Response) (c : Client) : Client :=
  {| responses := responses c; pendingResp := v; listenerStore := listenerStore c;
     catchersStore := catchersStore c; successMsgStore := successMsgStore c;
     updatesTimeout := updatesTimeout c; catchTimeout := catchTimeout c;
     DisablePatch := DisablePatch c |}.

Definition set_listenerStore (v : ListenerStore.t) (c : Client) : Client :=
  {| responses := responses c; pendingResp := pendingResp c; listenerStore := v;
     catchersStore := catchersStore c; successMsgStore := successMsgStore c;
     updatesTimeout := updatesTimeout c; catchTimeout := catchTimeout c;
     DisablePatch := DisablePatch c |}.

Definition set_catchersStore (v : gmap string (list Response)) (c : Client) : Client :=
  {| responses := responses c; pendingResp := pendingResp c; listenerStore := listenerStore c;
     catchersStore := v; successMsgStore := successMsgStore c;
     updatesTimeout := updatesTimeout c; catchTimeout := catchTimeout c;
     DisablePatch := DisablePatch c |}.

Definition set_successMsgStore (v : gmap Z (list Response)) (c : Client) : Client :=
  {| responses := responses c; pendingResp := pendingResp c; listenerStore := listenerStore c;
     catchersStore := catchersStore c; successMsgStore := v;
     updatesTimeout := updatesTimeout c; catchTimeout := catchTimeout c;
     DisablePatch := DisablePatch c |}.

Definition set_catchTimeout (v : Z) (c : Client) : Client :=
  {| responses := responses c; pendingResp := pendingResp c; listenerStore := listenerStore c;
     catchersStore := catchersStore c; successMsgStore := successMsgStore c;
     updatesTimeout := updatesTimeout c; catchTimeout := v;
     DisablePatch := DisablePatch c |}.

Definition set_DisablePatch (v : bool) (c : Client) : Client :=
  {| responses := responses c; pendingResp := pendingResp c; listenerStore := listenerStore c;
     catchersStore := catchersStore c; successMsgStore := successMsgStore c;
     updatesTimeout := updatesTimeout c; catchTimeout := catchTimeout c;
     DisablePatch := v |}.

(* ===================================================================== *)
(** ** client.go: configuration                                           *)
(* ===================================================================== *)

(** [WithExtraGenerator] and [WithProxy] act on the parts of the client
    that are not represented. *)
Definition Option := Client -> Client.

Definition WithCatchTimeout (timeout : Z) : Option :=
  fun client => set_catchTimeout timeout client.

Definition WithoutSendMessagePatch : Option :=
  fun client => set_DisablePatch true client.

(** [SetPendingUpdateType]: the package variable [pendingUpdateType] is
    passed in and returned. *)
Definition SetPendingUpdateType (pendingUpdateType : list TypeObj)
    (update : list TypeObj) : list TypeObj :=
  fold_left (fun pending v => pending ++ [v]) update pendingUpdateType.

(** [NewClient], lines 77-91: the client as it is when the options have
    been applied.  Lines 93-103 then register this client, start the worker
    and the receiver on it and run the authorization; [NewClient] returns
    the client when the authorization has succeeded, and nil with the error
    otherwise.  The goroutines and [Send] are given below as functions of
    the client, so that the client a caller holds is this one after some of
    their steps. *)
Definition NewClient (options : list Option) : Client :=
  let client :=
    {| responses := []; pendingResp := [];
       listenerStore := ListenerStore.newListenerStore;
       catchersStore := ∅; successMsgStore := ∅;
       updatesTimeout := 0; catchTimeout := 0; DisablePatch := false |} in
  let client := set_catchTimeout (60 * Second) client in
  fold_left (fun client option => option client) options client.

Definition GetListener (client : Client) : Listener * Client :=
  let listener :=
    {| isActive := true; Updates := None; RawUpdates := Some []; Filter := None |} in
  (listener,
   set_listenerStore (ListenerStore.Add (listenerStore client) listener) client).

(** [msgType] is an interface value: [None] is Go's nil.
    [channelCapacity] goes to [make], which panics when it is negative, so
    that no listener is registered then: the function stands for the calls
    with a capacity that is not negative. *)
Definition AddEventReceiver (client : Client) (msgType : option TypeObj)
    (channelCapacity : Z) : Listener * Client :=
  let listener :=
    {| isActive := true; Updates := Some []; RawUpdates := None; Filter := msgType |} in
  (listener,
   set_listenerStore (ListenerStore.Add (listenerStore client) listener) client).

(* ===================================================================== *)
(** ** client.go: the dispatcher                                          *)
(* ===================================================================== *)

(** How a call of [processResponse] ends, with the client as it is then. *)
Inductive Outcome :=
| Returned (client : Client)
| Panicked (client : Client).

Definition final (o : Outcome) : Client :=
  match o with
  | Returned client => client
  | Panicked client => client
  end.

(** [for _, p := range pendingUpdateType { if ... { client.pendingResp <- response } }]
    The entries of the list are types that are not nil.
    [SetPendingUpdateType] also takes a nil interface value, on which
    [p.GetType()] (line 128) panics; such an entry is not represented. *)
Fixpoint range_pendingUpdateType (typ : TypeObj) (response : Response)
    (pendingUpdateType : list TypeObj) (client : Client) : Client :=
  match pendingUpdateType with
  | [] => client
  | p :: rest =>
      let client :=
        if String.eqb (GetType typ) (GetType p)
        then set_pendingResp (pendingResp client ++ [response]) client
        else client in
      range_pendingUpdateType typ response rest client
  end.

(** The body of the loop over the listeners, for one listener: the listener
    afterwards and the new value of [needGc]; [None] when the body panics
    ([listener.Filter.GetType()] on a nil [Filter]). *)
Definition listener_body (typ : TypeObj) (listener : Listener) (needGc : bool)
    : option (Listener * bool) :=
  let otherwise :=
    if IsActive listener && bool_decide (RawUpdates listener <> None)
    then Some (send_RawUpdates listener (Sent typ), needGc)
    else if negb (IsActive listener) then Some (listener, true)
    else Some (listener, needGc) in
  if IsActive listener && bool_decide (Updates listener <> None) then
    match Filter listener with
    | None => None
    | Some filter =>
        if String.eqb (GetType typ) (GetType filter) then
          if String.eqb (GetType typ) TypeUpdateMessageSendSucceeded
          then Some (send_Updates listener (SentAfter (5 * Millisecond) typ), needGc)
          else Some (send_Updates listener (Sent typ), needGc)
        else otherwise
    end
  else otherwise.

(** [for _, listener := range client.listenerStore.Listeners() { ... }]:
    the listeners afterwards and [needGc], or, at a panic, the listeners as
    they are then. *)
Fixpoint range_Listeners (typ : TypeObj) (ls : list Listener) (needGc : bool)
    : (list Listener * bool) + list Listener :=
  match ls with
  | [] => inl ([], needGc)
  | listener :: rest =>
      match listener_body typ listener needGc with
      | None => inr (listener :: rest)
      | Some (listener', needGc') =>
          match range_Listeners typ rest needGc' with
          | inl (rest', g) => inl (listener' :: rest', g)
          | inr rest' => inr (listener' :: rest')
          end
      end
  end.

(** Lines 107-112: a response that carries a correlation id goes to the
    catcher stored under that id, if there is one. *)
Definition to_catcher (client : Client) (response : Response) : Client :=
  if negb (String.eqb (resp_Extra response) EmptyString) then
    match catchersStore client !! resp_Extra response with
    | Some catcher =>
        set_catchersStore
          (<[resp_Extra response := catcher ++ [response]]> (catchersStore client))
          client
    | None => client
    end
  else client.

(** Lines 119-124: with the patch enabled, a decoded
    [UpdateMessageSendSucceeded] goes to the channel stored under its
    [OldMessageId], if there is one.  [None] is the panic of the type
    assertion [typ.( *UpdateMessageSendSucceeded)]. *)
Definition to_successCatcher (client : Client) (response : Response)
    (typ : TypeObj) : option Client :=
  if negb (DisablePatch client)
     && String.eqb (GetType typ) TypeUpdateMessageSendSucceeded then
    match typ with
    | AsUpdateMessageSendSucceeded u =>
        match successMsgStore client !! OldMessageId u with
        | Some sendVal =>
            Some (set_successMsgStore
                    (<[OldMessageId u := sendVal ++ [response]]> (successMsgStore client))
                    client)
        | None => Some client
        end
    | OtherClass _ _ => None
    end
  else Some client.

(** Lines 126-132. *)
Definition to_pendingResp (pendingUpdateType : list TypeObj) (client : Client)
    (response : Response) (typ : TypeObj) : Client :=
  if (length (ListenerStore.Listeners (listenerStore client)) =? 0)%nat
  then range_pendingUpdateType typ response pendingUpdateType client
  else client.

(** Lines 134-157. *)
Definition to_listeners (client : Client) (typ : TypeObj) : Outcome :=
  match range_Listeners typ (ListenerStore.Listeners (listenerStore client)) false with
  | inr ls => Panicked (set_listenerStore ls client)
  | inl (ls, needGc) =>
      let client := set_listenerStore ls client in
      if needGc
      then Returned (set_listenerStore (ListenerStore.gc (listenerStore client)) client)
      else Returned client
  end.

Section Dispatcher.
Context {codec : Codec}.
Variable pendingUpdateType : list TypeObj.

Definition processResponse (client : Client) (response : Response) : Outcome :=
  let client := to_catcher client response in
  match UnmarshalType (resp_Data response) with
  | Err _ => Returned client
  | Ok typ =>
      match to_successCatcher client response typ with
      | None => Panicked client
      | Some client =>
          let client := to_pendingResp pendingUpdateType client response typ in
          to_listeners client typ
      end
  end.

(** [receiver]: [responses] is consumed in order; a panic ends the loop. *)
Fixpoint receiver_loop (queue : list Response) (client : Client) : Outcome :=
  match queue with
  | [] => Returned client
  | response :: rest =>
      match processResponse client response with
      | Returned client => receiver_loop rest client
      | Panicked client => Panicked client
      end
  end.

Definition receiver (client : Client) : Outcome :=
  receiver_loop (responses client) (set_responses [] client).

(** [processPendingResponse] is a loop that may never end; it is given as a
    step function on the places where the goroutine can be. *)
Inductive WorkerAt :=
| AtEntry          (* before the test of [len(pendingUpdateType)] *)
| WaitListener     (* in the loop that waits for a listener *)
| Drain            (* in the loop over [client.pendingResp] *)
| WorkerReturned   (* after [return] *)
| WorkerPanicked.

Definition processPendingResponse_step (client : Client) (at_ : WorkerAt)
    : Client * WorkerAt :=
  match at_ with
  | AtEntry =>
      if (length pendingUpdateType =? 0)%nat then (client, WorkerReturned)
      else (client, WaitListener)
  | WaitListener =>
      if (0 <? length (ListenerStore.Listeners (listenerStore client)))%nat
      then (client, Drain)
      else (client, WaitListener)     (* time.Sleep(1 * time.Second) *)
  | Drain =>
      match pendingResp client with
      | [] => (client, Drain)         (* the receive waits *)
      | response :: rest =>
          match processResponse (set_pendingResp rest client) response with
          | Returned client => (client, Drain)
          | Panicked client => (client, WorkerPanicked)
          end
      end
  | WorkerReturned => (client, WorkerReturned)
  | WorkerPanicked => (client, WorkerPanicked)
  end.

(** [n] steps of the goroutine with nothing else running in between. *)
Fixpoint processPendingResponse_run (n : nat) (client : Client) (at_ : WorkerAt)
    : Client * WorkerAt :=
  match n with
  | O => (client, at_)
  | S n' =>
      let '(client, at_) := processPendingResponse_step client at_ in
      processPendingResponse_run n' client at_
  end.

End Dispatcher.

(* ===================================================================== *)
(** ** client.go: Send                                                    *)
(* ===================================================================== *)

(** A [select] between a receive from a channel and a timer.  [arrival] is
    what the channel offers and when (nanoseconds after the select starts;
    a value that is already in the buffer has a time of zero or less),
    [None] if nothing is ever sent on it; the timer fires after [timeout]
    nanoseconds, at once if that is not positive.  The select takes the
    case that is ready first; [tie] is Go's choice when both are ready at
    the same instant ([true]: the channel). *)
Inductive Selected (A : Type) :=
| Received (a : A)
| TimedOut.
Arguments Received {A} a.
Arguments TimedOut {A}.

Definition select_with_timeout {A : Type} (arrival : option (Z * A))
    (timeout : Z) (tie : bool) : Selected A :=
  match arrival with
  | None => TimedOut
  | Some (t, a) =>
      let t := Z.max 0 t in
      let d := Z.max 0 timeout in
      if t <? d then Received a
      else if d <? t then TimedOut
      else if tie then Received a else TimedOut
  end.

(** What one call of [Send] meets from outside: the string the extra
    generator returns, what the dispatcher sends on [catcher] and on
    [successCatcher] and when, and the choices of the two selects. *)
Record Surroundings := {
  generated_extra : string;
  on_catcher : option (Z * Response);
  on_successCatcher : option (Z * Response);
  tie_catcher : bool;
  tie_successCatcher : bool
}.

(** What [Send] does to the stores and to the transport and where it
    waits, in the order in which this happens; a [Delete] also closes the
    channel, and a wait is a [select] with its timeout. *)
Inductive Effect :=
| catchersStore_Store (extra : string)
| jsonClient_Send (req : Request)
| wait_catcher (timeout : Z)
| successMsgStore_Store (id : Z)
| wait_successCatcher (timeout : Z)
| successMsgStore_Delete (id : Z)
| catchersStore_Delete (extra : string).

Definition PendingMarker : string :=
  quoted "@type" +:+ ":" +:+ quoted "messageSendingStatePending".
Definition SucceededMarker : string :=
  quoted "@type" +:+ ":" +:+ quoted "updateMessageSendSucceeded".
Definition IdField (id : Z) : string :=
  quoted "id" +:+ ":" +:+ FormatInt10 id.

Section Gateway.
Context {codec : Codec}.

Definition Send (client : Client) (req : Request) (env : Surroundings)
    : (option Response * option error) * list Effect :=
  let req := Request_set_Extra req (generated_extra env) in
  let entry := [catchersStore_Store (req_Extra req); jsonClient_Send req;
                wait_catcher (catchTimeout client)] in
  let deferred := [catchersStore_Delete (req_Extra req)] in
  match select_with_timeout (on_catcher env) (catchTimeout client) (tie_catcher env) with
  | Received response =>
      if negb (DisablePatch client)
         && negb (String.eqb (resp_Type response) "error")
         && String.eqb (req_Type req) "sendMessage" then
        match UnmarshalMessage (resp_Data response) with
        | Err err => ((None, Some (decoder_error err)), entry ++ deferred)
        | Ok m =>
            if String.eqb (MessageContentType (Content m)) "messageText"
               || String.eqb (MessageContentType (Content m)) "messageDice" then
              let registered := [successMsgStore_Store (Id m);
                                 wait_successCatcher (1 * Second)] in
              let deferred := successMsgStore_Delete (Id m) :: deferred in
              match select_with_timeout (on_successCatcher env) (1 * Second)
                      (tie_successCatcher env) with
              | Received modResponse =>
                  match UnmarshalUpdateMessageSendSucceeded (resp_Data modResponse) with
                  | Err _ => ((Some response, None), entry ++ registered ++ deferred)
                  | Ok m2 =>
                      let response :=
                        Response_set_Data response
                          (Replace (resp_Data response) PendingMarker SucceededMarker 1) in
                      let response :=
                        Response_set_Data response
                          (Replace (resp_Data response) (IdField (Id m))
                             (IdField (Id (Message_ m2))) 1) in
                      ((Some response, None), entry ++ registered ++ deferred)
                  end
              | TimedOut => ((Some response, None), entry ++ registered ++ deferred)
              end
            else ((Some response, None), entry ++ deferred)
        end
      else ((Some response, None), entry ++ deferred)
  | TimedOut =>
      ((None, Some (errors_New "response catching timeout")), entry ++ deferred)
  end.

End Gateway.

(** The stores after an effect of [Send]. *)
Definition apply_Effect (client : Client) (e : Effect) : Client :=
  match e with
  | catchersStore_Store extra =>
      set_catchersStore (<[extra := []]> (catchersStore client)) client
  | jsonClient_Send _ => client
  | wait_catcher _ => client
  | wait_successCatcher _ => client
  | successMsgStore_Store id =>
      set_successMsgStore (<[id := []]> (successMsgStore client)) client
  | successMsgStore_Delete id =>
      set_successMsgStore (delete id (successMsgStore client)) client
  | catchersStore_Delete extra =>
      set_catchersStore (delete extra (catchersStore client)) client
  end.

(* ===================================================================== *)
(** ** Descriptions used in the statements                                *)
(* ===================================================================== *)

(** [s'] is [s] with the first occurrence of [old] replaced by [new], and
    [s] itself if [old] does not occur in [s]. *)
Definition occurs_at (old s pre post : string) : Prop :=
  s = pre +:+ old +:+ post.

Definition first_replaced (s old new s' : string) : Prop :=
  (s' = s /\ forall pre post, ~ occurs_at old s pre post)
  \/ (exists pre post,
        occurs_at old s pre post
        /\ s' = pre +:+ new +:+ post
        /\ forall pre' post', occurs_at old s pre' post' ->
             (String.length pre <= String.length pre')%nat).

(** A listener as [GetListener] and [AddEventReceiver] (with a type) make
    them, at any later moment: the channel contents and the active flag may
    have changed since. *)
Definition raw_listener (listener : Listener) : Prop :=
  Updates listener = None /\ RawUpdates listener <> None /\ Filter listener = None.

Definition filtered_listener (X : TypeObj) (listener : Listener) : Prop :=
  Updates listener <> None /\ RawUpdates listener = None /\ Filter listener = Some X.

Definition created (listener : Listener) : Prop :=
  raw_listener listener \/ exists X, filtered_listener X listener.

(** What a listener receives of a decoded update, in the words of the
    specification: a listener with a filter gets it on [Updates] exactly
    when the types are equal, a listener without filter gets it on
    [RawUpdates], and an inactive listener gets nothing. *)
Definition delivery_of (typ : TypeObj) : Delivery :=
  if String.eqb (GetType typ) TypeUpdateMessageSendSucceeded
  then SentAfter (5 * Millisecond) typ
  else Sent typ.

Definition receives (typ : TypeObj) (listener : Listener) : Listener :=
  if isActive listener then
    match Filter listener with
    | Some X =>
        if String.eqb (GetType typ) (GetType X)
        then send_Updates listener (delivery_of typ)
        else listener
    | None => send_RawUpdates listener (Sent typ)
    end
  else listener.

(** The number of entries of the pending-type list with the tag of [typ]. *)
Definition configured_times (typ : TypeObj) (pendingUpdateType : list TypeObj) : nat :=
  length (List.filter (fun p => String.eqb (GetType typ) (GetType p)) pendingUpdateType).

(** The decoded objects of the responses that decode. *)
Definition decoded {codec : Codec} (rs : list Response) : list TypeObj :=
  omap (fun r => match UnmarshalType (resp_Data r) with
                 | Ok typ => Some typ
                 | Err _ => None
                 end) rs.

(** [typ] has been sent on a channel of some registered listener. *)
Definition delivered_to_a_listener (typ : TypeObj) (client : Client) : Prop :=
  exists listener ch d,
    listener ∈ listenerStore client
    /\ (Updates listener = Some ch \/ RawUpdates listener = Some ch)
    /\ d ∈ ch /\ carried d = typ.

(** What a listener receives of a sequence of decoded updates. *)
Definition receives_all (typs : list TypeObj) (listener : Listener) : Listener :=
  fold_left (fun listener typ => receives typ listener) typs listener.

(** The last part of the claim on the pending buffer, as the specification
    states it: once a listener is registered, the worker empties the buffer
    and every buffered update reaches a channel of a listener. *)
Definition every_buffered_update_reaches_a_listener : Prop :=
  forall (codec : Codec) (pendingUpdateType : list TypeObj) (client : Client)
         (response : Response) (typ : TypeObj),
    response ∈ pendingResp client ->
    UnmarshalType (resp_Data response) = Ok typ ->
    Forall created (listenerStore client) ->
    Forall (fun l => isActive l = true) (listenerStore client) ->
    listenerStore client <> [] ->
    let client' :=
      (processPendingResponse_run pendingUpdateType
         (S (length (pendingResp client))) client WaitListener).1 in
    delivered_to_a_listener typ client'.

(** The conditions under which [Send] enters the patch sub-flow, and the
    trace of a call that entered it. *)
Definition patch_applies (client : Client) (req : Request) (response : Response) : Prop :=
  DisablePatch client = false
  /\ resp_Type response <> "error"
  /\ req_Type req = "sendMessage".

Definition text_or_dice (m : Message) : Prop :=
  MessageContentType (Content m) = "messageText"
  \/ MessageContentType (Content m) = "messageDice".

Definition patch_conditions {codec : Codec} (client : Client) (req : Request)
    (response : Response) : Prop :=
  patch_applies client req response
  /\ exists m, UnmarshalMessage (resp_Data response) = Ok m /\ text_or_dice m.

Definition patch_subflow_ran (effects : list Effect) : Prop :=
  (exists id, successMsgStore_Store id ∈ effects)
  /\ wait_successCatcher (1 * Second) ∈ effects.

(** The claim on the errors of [Send], as the specification states it: an
    error comes back only when the wait for the response times out, and
    every other call returns a response and no error. *)
Definition Send_fails_only_on_timeout : Prop :=
  forall (codec : Codec) (client : Client) (req : Request) (env : Surroundings),
    match select_with_timeout (on_catcher env) (catchTimeout client) (tie_catcher env) with
    | TimedOut =>
        (Send client req env).1
        = (None, Some (errors_New "response catching timeout"))
    | Received _ =>
        exists response, (Send client req env).1 = (Some response, None)
    end.

(** The claim on when the patch sub-flow runs, as the specification states
    it: exactly under the four conditions, and in every other case the
    response comes back unmodified. *)
Definition patch_runs_exactly_under_its_conditions : Prop :=
  forall (codec : Codec) (client : Client) (req : Request) (env : Surroundings)
         (response : Response),
    select_with_timeout (on_catcher env) (catchTimeout client) (tie_catcher env)
    = Received response ->
    (patch_subflow_ran (Send client req env).2 <-> patch_conditions client req response)
    /\ (~ patch_conditions client req response ->
        (Send client req env).1 = (Some response, None)).

(* ===================================================================== *)
(** ** Concrete payloads and decoders for the examples                    *)
(* ===================================================================== *)

Module Sample.

Definition object (fields : string) : string := "{" +:+ fields +:+ "}".
Definition tagged (tag : string) : string := quoted "@type" +:+ ":" +:+ quoted tag.

(** The answer to a sendMessage request: a text message with temporary id
    100 that is still being sent. *)
Definition pending_message : string :=
  object (tagged "message" +:+ "," +:+ IdField 100 +:+ ","
          +:+ quoted "sending_state" +:+ ":" +:+ object PendingMarker +:+ ","
          +:+ quoted "content" +:+ ":" +:+ object (tagged "messageText")).

(** The update that reports final id 500 for temporary id 100. *)
Definition send_succeeded : string :=
  object (SucceededMarker +:+ ","
          +:+ quoted "message" +:+ ":" +:+ object (tagged "message" +:+ "," +:+ IdField 500)
          +:+ "," +:+ quoted "old_message_id" +:+ ":100").

Definition new_message : string := object (tagged "updateNewMessage").
Definition user_status : string := object (tagged "updateUserStatus").
(** A payload cut off in transit. *)
Definition truncated : string := "{" +:+ tagged "message" +:+ "," +:+ quoted "id".

Definition text : MessageContent := {| MessageContentType := "messageText" |}.
Definition message100 : Message := {| Id := 100; Content := text |}.
Definition message500 : Message := {| Id := 500; Content := text |}.
Definition succeeded100 : UpdateMessageSendSucceeded :=
  {| Message_ := message500; OldMessageId := 100 |}.

Definition updateNewMessage : TypeObj := OtherClass "updateNewMessage" I.
Definition updateUserStatus : TypeObj := OtherClass "updateUserStatus" I.

(** Decoders that know the payloads above and fail on anything else. *)
Definition codec : Codec := {|
  UnmarshalType data :=
    if String.eqb data send_succeeded then Ok (AsUpdateMessageSendSucceeded succeeded100)
    else if String.eqb data new_message then Ok updateNewMessage
    else if String.eqb data user_status then Ok updateUserStatus
    else Err "unexpected end of JSON input";
  UnmarshalMessage data :=
    if String.eqb data pending_message then Ok message100
    else Err "unexpected end of JSON input";
  UnmarshalUpdateMessageSendSucceeded data :=
    if String.eqb data send_succeeded then Ok succeeded100
    else Err "unexpected end of JSON input"
|}.

Definition response (type extra data : string) : Response :=
  {| resp_Type := type; resp_Extra := extra; resp_Data := data |}.

Definition sendMessage : Request :=
  {| req_Type := "sendMessage"; req_Extra := EmptyString;
     req_Data := object (quoted "chat_id" +:+ ":1") |}.

Definition client : Client := NewClient [].

End Sample.

(* ===================================================================== *)
(** ** Further descriptions                                               *)
(* ===================================================================== *)

(** A listener as [AddEventReceiver] makes it from a nil type, while it is
    active: it has an [Updates] channel and a nil [Filter]. *)
Definition nil_filtered (listener : Listener) : Prop :=
  isActive listener = true /\ Updates listener <> None /\ Filter listener = None.

(** The options of client.go that act on the represented part of the
    client. *)
Definition known_option (option : Option) : Prop :=
  option = WithoutSendMessagePatch \/ exists timeout, option = WithCatchTimeout timeout.

(** Modelled from the spec: the consumer of a listener flips its active
    flag to ask for its removal (the method Close of the listener source
    file, which is not part of the two files embedded here).  The listener
    is given by its place in the registry. *)
Definition Close (listener : Listener) : Listener :=
  {| isActive := false; Updates := Updates listener;
     RawUpdates := RawUpdates listener; Filter := Filter listener |}.

Definition close_listener (i : nat) (client : Client) : Client :=
  set_listenerStore (alter Close i (listenerStore client)) client.

(** The clients a program can come to through the functions of client.go
    when it passes types that are not nil: made by [NewClient], then
    changed by the registration and the closing of listeners, by the
    dispatcher, by the worker and by the effects of [Send]. *)
Inductive Built {codec : Codec} (pendingUpdateType : list TypeObj) : Client -> Prop :=
| Built_NewClient (options : list Option) :
    Forall known_option options -> Built pendingUpdateType (NewClient options)
| Built_GetListener (client : Client) :
    Built pendingUpdateType client -> Built pendingUpdateType (GetListener client).2
| Built_AddEventReceiver (client : Client) (msgType : TypeObj) (capacity : Z) :
    Built pendingUpdateType client ->
    Built pendingUpdateType (AddEventReceiver client (Some msgType) capacity).2
| Built_Close (client : Client) (i : nat) :
    Built pendingUpdateType client -> Built pendingUpdateType (close_listener i client)
| Built_processResponse (client : Client) (response : Response) :
    Built pendingUpdateType client ->
    Built pendingUpdateType (final (processResponse pendingUpdateType client response))
| Built_worker (client : Client) (at_ : WorkerAt) :
    Built pendingUpdateType client ->
    Built pendingUpdateType (processPendingResponse_step pendingUpdateType client at_).1
| Built_Send (client : Client) (e : Effect) :
    Built pendingUpdateType client -> Built pendingUpdateType (apply_Effect client e).

(** The clients that come after a given client through the functions of
    client.go: the registration and the closing of listeners, calls of the
    dispatcher, steps of the worker and the effects of [Send].  [NewClient]
    starts the worker and the receiver and runs the authorization (lines
    93-103) on the client that it has configured (lines 77-91), and returns
    that client when the authorization has succeeded: the client a caller
    holds comes after the configured one. *)
Inductive After {codec : Codec} (pendingUpdateType : list TypeObj) (start : Client)
    : Client -> Prop :=
| After_start : After pendingUpdateType start start
| After_GetListener (client : Client) :
    After pendingUpdateType start client ->
    After pendingUpdateType start (GetListener client).2
| After_AddEventReceiver (client : Client) (msgType : option TypeObj) (capacity : Z) :
    After pendingUpdateType start client ->
    After pendingUpdateType start (AddEventReceiver client msgType capacity).2
| After_Close (client : Client) (i : nat) :
    After pendingUpdateType start client ->
    After pendingUpdateType start (close_listener i client)
| After_processResponse (client : Client) (response : Response) :
    After pendingUpdateType start client ->
    After pendingUpdateType start
      (final (processResponse pendingUpdateType client response))
| After_worker (client : Client) (at_ : WorkerAt) :
    After pendingUpdateType start client ->
    After pendingUpdateType start
      (processPendingResponse_step pendingUpdateType client at_).1
| After_Send (client : Client) (e : Effect) :
    After pendingUpdateType start client ->
    After pendingUpdateType start (apply_Effect client e).

(** The responses of a queue that carry a given correlation id. *)
Definition carrying (extra : string) (queue : list Response) : list Response :=
  List.filter (fun response => String.eqb (resp_Extra response) extra) queue.

(* ===================================================================== *)
(** ** Facts about the Go library functions                               *)
(* ===================================================================== *)

Section StringFacts.
Import GoStrings.

Lemma append_nil (s : string) : EmptyString +:+ s = s.
Proof. reflexivity. Qed.

Lemma append_cons (a : ascii) (s t : string) : String a s +:+ t = String a (s +:+ t).
Proof. reflexivity. Qed.

Lemma length_append (s t : string) :
  String.length (s +:+ t) = (String.length s + String.length t)%nat.
Proof.
  induction s as [|a s IH]; [reflexivity|].
  rewrite append_cons. simpl. rewrite IH. reflexivity.
Qed.

Lemma HasPrefix_append (p post : string) : HasPrefix (p +:+ post) p = true.
Proof.
  induction p as [|a p IH]; [reflexivity|].
  rewrite append_cons. simpl. rewrite Ascii.eqb_refl. exact IH.
Qed.

Lemma HasPrefix_drop (s p : string) :
  HasPrefix s p = true -> s = p +:+ drop (String.length p) s.
Proof.
  revert s. induction p as [|a p IH]; intros s H; simpl.
  - reflexivity.
  - destruct s as [|b s]; simpl in H; [discriminate|].
    apply andb_true_iff in H as [Hab Hp].
    apply Ascii.eqb_eq in Hab. subst b. simpl. rewrite append_cons.
    f_equal. apply IH, Hp.
Qed.

Lemma Index_range (s sub : string) : Index s sub = -1 \/ 0 <= Index s sub.
Proof.
  induction s as [|a s IH]; simpl.
  - destruct (HasPrefix _ _); lia.
  - destruct (HasPrefix _ _); [lia|].
    destruct (Z.ltb_spec (Index s sub) 0); lia.
Qed.

Lemma Index_zero (s sub : string) : Index s sub = 0 <-> HasPrefix s sub = true.
Proof.
  split.
  - destruct s as [|a s]; simpl; destruct (HasPrefix _ _); try reflexivity; try lia.
    destruct (Z.ltb_spec (Index s sub) 0); [lia|].
    pose proof (Index_range s sub). lia.
  - intros H. destruct s; simpl in *; rewrite H; reflexivity.
Qed.

Lemma Index_cons (a : ascii) (s sub : string) :
  HasPrefix (String a s) sub = false ->
  Index (String a s) sub = if Index s sub <? 0 then -1 else Index s sub + 1.
Proof. intros H. simpl Index. rewrite H. reflexivity. Qed.

(** Where [Index] finds [old], [s] splits there, and no occurrence starts
    earlier. *)
Lemma Index_found (s old : string) :
  0 <= Index s old ->
  s = slice_to s (Index s old) +:+ old +:+ slice_from s (Index s old + len old)
  /\ forall pre post, occurs_at old s pre post ->
       (Z.to_nat (Index s old) <= String.length pre)%nat.
Proof.
  unfold slice_to, slice_from, len, occurs_at.
  induction s as [|a s IH]; intros Hnn.
  - simpl in *. destruct (HasPrefix EmptyString old) eqn:Hp; [|lia].
    destruct old; [|discriminate]. simpl. split; [reflexivity|]. intros; lia.
  - destruct (HasPrefix (String a s) old) eqn:Hp.
    + assert (Hz : Index (String a s) old = 0) by (apply Index_zero; exact Hp).
      rewrite Hz. simpl Z.to_nat. simpl take.
      rewrite Z.add_0_l, Nat2Z.id. split; [|intros; lia].
      apply (HasPrefix_drop _ _ Hp).
    + rewrite (Index_cons _ _ _ Hp) in *.
      destruct (Z.ltb_spec (Index s old) 0) as [Hlt|Hge]; [lia|].
      destruct (IH Hge) as [Hsplit Hmin].
      replace (Z.to_nat (Index s old + 1)) with (S (Z.to_nat (Index s old))) by lia.
      replace (Z.to_nat (Index s old + 1 + Z.of_nat (String.length old)))
        with (S (Z.to_nat (Index s old + Z.of_nat (String.length old)))) by lia.
      simpl. rewrite append_cons. split; [f_equal; exact Hsplit|].
      intros pre post Hocc. destruct pre as [|b pre].
      * rewrite append_nil in Hocc. rewrite Hocc, HasPrefix_append in Hp. discriminate.
      * rewrite append_cons in Hocc. injection Hocc as _ Hocc.
        specialize (Hmin _ _ Hocc). simpl. lia.
Qed.

(** Where [Index] answers [-1], [old] does not occur in [s]. *)
Lemma Index_absent (s old : string) :
  Index s old < 0 -> forall pre post, ~ occurs_at old s pre post.
Proof.
  unfold occurs_at.
  induction s as [|a s IH]; intros Hneg pre post Hocc.
  - simpl in Hneg. destruct (HasPrefix EmptyString old) eqn:Hp; [lia|].
    destruct pre; [|discriminate]. rewrite append_nil in Hocc.
    rewrite Hocc, HasPrefix_append in Hp. discriminate.
  - destruct (HasPrefix (String a s) old) eqn:Hp.
    + apply Index_zero in Hp. lia.
    + rewrite (Index_cons _ _ _ Hp) in Hneg.
      destruct pre as [|b pre].
      * rewrite append_nil in Hocc. rewrite Hocc, HasPrefix_append in Hp. discriminate.
      * rewrite append_cons in Hocc. injection Hocc as _ Hocc.
        destruct (Z.ltb_spec (Index s old) 0) as [Hlt|Hge].
        -- exact (IH Hlt _ _ Hocc).
        -- pose proof (Index_range s old). lia.
Qed.

(** [bytes.Replace] with [n = 1] replaces the first occurrence. *)
Lemma Replace_first (s old new : string) :
  first_replaced s old new (Replace s old new 1).
Proof.
  unfold Replace, first_replaced. simpl.
  destruct (Z.ltb_spec (Index s old) 0) as [Hlt|Hge].
  - left. split; [reflexivity|]. apply Index_absent, Hlt.
  - right. destruct (Index_found s old Hge) as [Hsplit Hmin].
    exists (slice_to s (Index s old)), (slice_from s (Index s old + len old)).
    split; [exact Hsplit|]. split; [reflexivity|].
    intros pre' post' Hocc. specialize (Hmin _ _ Hocc).
    assert (Hlen : String.length (slice_to s (Index s old)) = Z.to_nat (Index s old)).
    { assert (Hle : (Z.to_nat (Index s old) <= String.length s)%nat).
      { pose proof (f_equal String.length Hocc) as Hl.
        rewrite !length_append in Hl. lia. }
      unfold slice_to. revert Hle. generalize (Z.to_nat (Index s old)).
      clear. intros n. revert s. induction n as [|n IH]; intros s Hle.
      - destruct s; reflexivity.
      - destruct s as [|a s]; simpl in *; [lia|]. f_equal. apply IH. lia. }
    rewrite Hlen. exact Hmin.
Qed.

End StringFacts.

(* ===================================================================== *)
(** ** extra.go: the two versions agree                                   *)
(* ===================================================================== *)

Section ExtraFacts.
Import GoStrings.

Lemma IsCommandA_prefix (text : string) :
  ExtraA.IsCommand text = HasPrefix text "/".
Proof.
  destruct text as [|a s]; [reflexivity|].
  change (ExtraA.IsCommand (String a s)) with (if Ascii.eqb a "/" then true else false).
  change (HasPrefix (String a s) "/") with (Ascii.eqb "/" a && true).
  rewrite (Ascii.eqb_sym a). destruct (Ascii.eqb "/" a); reflexivity.
Qed.

Lemma IsCommandB_prefix (text : string) :
  ExtraB.IsCommand text = HasPrefix text "/".
Proof.
  unfold ExtraB.IsCommand. cbv zeta.
  destruct (HasPrefix text "/") eqn:Hp.
  - apply Index_zero in Hp. rewrite Hp. reflexivity.
  - destruct (Z.eqb_spec (Index text "/") 0) as [Hz|]; [|reflexivity].
    apply Index_zero in Hz. congruence.
Qed.

(** In a command, a separator other than '/' is either absent or found
    after the first character, so that the prefix before it is not empty. *)
Lemma Index_in_command (s : string) (c : ascii) :
  Ascii.eqb c "/" = false ->
  let i := Index (String "/" s) (String c EmptyString) in
  i = -1 \/ (1 <= i /\ String.eqb (slice_to (String "/" s) i) EmptyString = false).
Proof.
  intros Hc i. subst i.
  assert (Hp : HasPrefix (String "/" s) (String c EmptyString) = false).
  { change (Ascii.eqb c "/" && true = false). rewrite Hc. reflexivity. }
  rewrite (Index_cons _ _ _ Hp).
  destruct (Z.ltb_spec (Index s (String c EmptyString)) 0) as [Hlt|Hge]; [left; reflexivity|].
  right. split; [lia|]. unfold slice_to.
  replace (Z.to_nat (Index s (String c EmptyString) + 1))
    with (S (Z.to_nat (Index s (String c EmptyString)))) by lia.
  reflexivity.
Qed.

End ExtraFacts.

(** C9: the two versions of [IsCommand] return the same boolean on every
    string, the two versions of [CheckCommand] return the same string on
    every string and entity list, and that string is the prefix before the
    first '@' if there is one, else the prefix before the first space if
    there is one, else the whole text, for a command, and the empty string
    otherwise. *)
Theorem extra_versions_agree (TextEntity : Type) (text : string)
    (entities : list TextEntity) :
  ExtraA.IsCommand text = ExtraB.IsCommand text
  /\ ExtraA.CheckCommand TextEntity text entities
     = ExtraB.CheckCommand TextEntity text entities
  /\ ExtraB.CheckCommand TextEntity text entities = CheckCommand_described text.
Proof.
  split; [rewrite IsCommandA_prefix, IsCommandB_prefix; reflexivity|].
  unfold ExtraA.CheckCommand, ExtraB.CheckCommand, CheckCommand_described.
  rewrite IsCommandA_prefix, IsCommandB_prefix. cbv zeta.
  destruct (HasPrefix text "/") eqn:Hp; [|split; reflexivity].
  destruct text as [|a s]; [discriminate|].
  change (Ascii.eqb "/" a && true = true) in Hp.
  apply andb_true_iff in Hp as [Ha _].
  apply Ascii.eqb_eq in Ha. subst a.
  pose proof (Index_in_command s "@" eq_refl) as Hat.
  pose proof (Index_in_command s " " eq_refl) as Hsp.
  cbv zeta in Hat, Hsp.
  set (ia := Index (String "/" s) "@") in *.
  set (isp := Index (String "/" s) " ") in *.
  set (ta := slice_to (String "/" s) ia) in *.
  set (tsp := slice_to (String "/" s) isp) in *.
  clearbody ta tsp. clearbody ia isp.
  destruct (Z.eqb_spec ia (-1)), (Z.eqb_spec isp (-1)),
    (Z.leb_spec 0 ia), (Z.leb_spec 0 isp); try lia;
    destruct Hat as [Hat|[Hat1 Hat2]], Hsp as [Hsp|[Hsp1 Hsp2]]; try lia;
    simpl negb; cbv iota; rewrite ?Hat2, ?Hsp2; split; reflexivity.
Qed.

(** The examples in the comments of extra.go. *)
Example CheckCommand_at_sign :
  ExtraA.CheckCommand unit "/hello@world_bot" [] = "/hello"
  /\ ExtraB.CheckCommand unit "/hello@world_bot" [] = "/hello"
  /\ ExtraB.CheckCommand unit "/hello@" [] = "/hello".
Proof. repeat split. Qed.

Example CheckCommand_space :
  ExtraA.CheckCommand unit "/hell o 123" [] = "/hell"
  /\ ExtraB.CheckCommand unit "/hell o 123" [] = "/hell"
  /\ ExtraB.CheckCommand unit "/hello 123@x" [] = "/hello 123"
  /\ ExtraA.CheckCommand unit "/hello 123@x" [] = "/hello 123".
Proof. repeat split. Qed.

Example CheckCommand_plain :
  ExtraA.CheckCommand unit "/start" [] = "/start"
  /\ ExtraB.CheckCommand unit "hello /start" [] = EmptyString.
Proof. repeat split. Qed.

(* ===================================================================== *)
(** ** The dispatcher, step by step                                       *)
(* ===================================================================== *)

Section DispatcherFacts.
Context {codec : Codec}.
Variable pendingUpdateType : list TypeObj.

(** Every step but one leaves a given store alone. *)
Lemma to_catcher_frame (client : Client) (response : Response) :
  let client' := to_catcher client response in
  pendingResp client' = pendingResp client
  /\ listenerStore client' = listenerStore client
  /\ successMsgStore client' = successMsgStore client
  /\ DisablePatch client' = DisablePatch client
  /\ responses client' = responses client
  /\ catchTimeout client' = catchTimeout client
  /\ updatesTimeout client' = updatesTimeout client.
Proof.
  unfold to_catcher.
  destruct (negb _); [|repeat split].
  destruct (catchersStore client !! resp_Extra response); repeat split.
Qed.

Lemma to_catcher_store (client : Client) (response : Response) (extra : string)
    (catcher : list Response) :
  catchersStore client !! extra = Some catcher ->
  catchersStore (to_catcher client response) !! extra
  = Some (if bool_decide (resp_Extra response = extra /\ extra <> EmptyString)
          then catcher ++ [response] else catcher).
Proof.
  intros Hin. unfold to_catcher.
  destruct (String.eqb_spec (resp_Extra response) EmptyString) as [He|Hne]; simpl.
  - rewrite bool_decide_eq_false_2; [exact Hin|]. intros [H1 H2]. congruence.
  - destruct (decide (resp_Extra response = extra)) as [Hx|Hx].
    + rewrite Hx, Hin. simpl. rewrite lookup_insert_eq.
      rewrite bool_decide_eq_true_2; [reflexivity|]. split; congruence.
    + rewrite bool_decide_eq_false_2 by (intros [H1 H2]; congruence).
      destruct (catchersStore client !! resp_Extra response); simpl; [|exact Hin].
      rewrite lookup_insert_ne by exact Hx. exact Hin.
Qed.

(** The type assertion cannot fail: only the class
    [UpdateMessageSendSucceeded] answers its tag. *)
Lemma to_successCatcher_frame (client : Client) (response : Response) (typ : TypeObj) :
  exists client',
    to_successCatcher client response typ = Some client'
    /\ pendingResp client' = pendingResp client
    /\ listenerStore client' = listenerStore client
    /\ catchersStore client' = catchersStore client
    /\ DisablePatch client' = DisablePatch client
    /\ responses client' = responses client
    /\ catchTimeout client' = catchTimeout client
    /\ updatesTimeout client' = updatesTimeout client.
Proof.
  unfold to_successCatcher.
  destruct (negb (DisablePatch client)); simpl; [|exists client; repeat split].
  destruct typ as [u|tag other]; simpl.
  - destruct (successMsgStore client !! OldMessageId u);
      eexists; (split; [reflexivity|repeat split]).
  - destruct (String.eqb tag TypeUpdateMessageSendSucceeded); [destruct other|].
    exists client; repeat split.
Qed.

Lemma to_successCatcher_store (client client' : Client) (response : Response)
    (typ : TypeObj) (id : Z) (ch : list Response) :
  to_successCatcher client response typ = Some client' ->
  successMsgStore client !! id = Some ch ->
  successMsgStore client' !! id
  = Some (match typ with
          | AsUpdateMessageSendSucceeded u =>
              if negb (DisablePatch client) && bool_decide (OldMessageId u = id)
              then ch ++ [response] else ch
          | OtherClass _ _ => ch
          end).
Proof.
  unfold to_successCatcher. intros Hs Hin.
  destruct (negb (DisablePatch client)); simpl in *.
  - destruct typ as [u|tag other]; simpl in Hs.
    + destruct (decide (OldMessageId u = id)) as [He|Hne].
      * rewrite He, Hin in Hs. injection Hs as <-. simpl.
        rewrite He, lookup_insert_eq, bool_decide_eq_true_2; reflexivity.
      * rewrite bool_decide_eq_false_2 by exact Hne.
        destruct (successMsgStore client !! OldMessageId u); injection Hs as <-; simpl;
          [rewrite lookup_insert_ne by exact Hne|]; exact Hin.
    + destruct (String.eqb tag TypeUpdateMessageSendSucceeded); [discriminate|].
      injection Hs as <-. exact Hin.
  - injection Hs as <-. destruct typ; exact Hin.
Qed.

Lemma range_pendingUpdateType_frame (typ : TypeObj) (response : Response)
    (pending : list TypeObj) (client : Client) :
  let client' := range_pendingUpdateType typ response pending client in
  pendingResp client'
  = pendingResp client ++ repeat response (configured_times typ pending)
  /\ listenerStore client' = listenerStore client
  /\ catchersStore client' = catchersStore client
  /\ successMsgStore client' = successMsgStore client
  /\ DisablePatch client' = DisablePatch client.
Proof.
  revert client. unfold configured_times.
  induction pending as [|p rest IH]; intros client; simpl.
  - rewrite app_nil_r. repeat split.
  - destruct (IH (if String.eqb (GetType typ) (GetType p)
                  then set_pendingResp (pendingResp client ++ [response]) client
                  else client)) as (H1 & H2 & H3 & H4 & H5).
    rewrite H1, H2, H3, H4, H5.
    destruct (String.eqb (GetType typ) (GetType p)); simpl.
    + rewrite <- app_assoc. repeat split.
    + repeat split.
Qed.

Lemma to_pendingResp_frame (client : Client) (response : Response) (typ : TypeObj) :
  let client' := to_pendingResp pendingUpdateType client response typ in
  pendingResp client'
  = pendingResp client
      ++ (if bool_decide (listenerStore client = [])
          then repeat response (configured_times typ pendingUpdateType) else [])
  /\ listenerStore client' = listenerStore client
  /\ catchersStore client' = catchersStore client
  /\ successMsgStore client' = successMsgStore client
  /\ DisablePatch client' = DisablePatch client.
Proof.
  unfold to_pendingResp, ListenerStore.Listeners.
  destruct (listenerStore client) as [|l ls] eqn:Hls; simpl.
  - pose proof (range_pendingUpdateType_frame typ response pendingUpdateType client) as H.
    simpl in H. rewrite Hls in H. exact H.
  - rewrite app_nil_r. repeat split; assumption.
Qed.

Lemma to_listeners_frame (client : Client) (typ : TypeObj) :
  let client' := final (to_listeners client typ) in
  pendingResp client' = pendingResp client
  /\ catchersStore client' = catchersStore client
  /\ successMsgStore client' = successMsgStore client
  /\ DisablePatch client' = DisablePatch client.
Proof.
  unfold to_listeners.
  destruct (range_Listeners _ _ _) as [[ls [|]]|ls]; repeat split.
Qed.

(** [processResponse] on a response that decodes, as the chain of its steps. *)
Lemma processResponse_decoded (client : Client) (response : Response) (typ : TypeObj) :
  UnmarshalType (resp_Data response) = Ok typ ->
  exists client1,
    to_successCatcher (to_catcher client response) response typ = Some client1
    /\ processResponse pendingUpdateType client response
       = to_listeners (to_pendingResp pendingUpdateType client1 response typ) typ.
Proof.
  intros Hd. unfold processResponse. rewrite Hd.
  destruct (to_successCatcher_frame (to_catcher client response) response typ)
    as (client1 & Hs & _).
  exists client1. rewrite Hs. split; reflexivity.
Qed.

(** [processResponse] on a response that does not decode: only the first
    step has run. *)
Lemma processResponse_undecoded (client : Client) (response : Response)
    (message : string) :
  UnmarshalType (resp_Data response) = Err message ->
  processResponse pendingUpdateType client response
  = Returned (to_catcher client response).
Proof. intros Hd. unfold processResponse. rewrite Hd. reflexivity. Qed.

End DispatcherFacts.

(* ===================================================================== *)
(** ** Claims about the dispatcher                                        *)
(* ===================================================================== *)

(** C7: a response whose payload does not decode is dropped without any
    error: [processResponse] returns normally, no listener channel, the
    pending buffer and the secondary correlation store are as before.  The
    lookup of the correlation id, which comes before the decoding, still
    hands the raw response to the catcher stored under its id; a non-empty
    id without an entry, like an empty id, changes nothing at all.  The
    receiver then goes on with the next response. *)
Theorem undecodable_response_is_dropped {codec : Codec}
    (pendingUpdateType : list TypeObj) (client : Client) (response : Response)
    (e : string) :
  UnmarshalType (resp_Data response) = Err e ->
  exists client',
    processResponse pendingUpdateType client response = Returned client'
    /\ listenerStore client' = listenerStore client
    /\ pendingResp client' = pendingResp client
    /\ successMsgStore client' = successMsgStore client
    /\ (forall catcher,
          resp_Extra response <> EmptyString ->
          catchersStore client !! resp_Extra response = Some catcher ->
          catchersStore client'
          = <[resp_Extra response := catcher ++ [response]]> (catchersStore client))
    /\ (catchersStore client !! resp_Extra response = None -> client' = client)
    /\ (resp_Extra response = EmptyString -> client' = client)
    /\ (forall rest,
          receiver_loop pendingUpdateType (response :: rest) client
          = receiver_loop pendingUpdateType rest client').
Proof.
  intros Hd. exists (to_catcher client response).
  rewrite (processResponse_undecoded pendingUpdateType client response e Hd).
  destruct (to_catcher_frame client response) as (Hp & Hl & Hs & _).
  split; [reflexivity|]. split; [exact Hl|]. split; [exact Hp|]. split; [exact Hs|].
  split; [|split; [|split]].
  - intros catcher Hne Hin. unfold to_catcher.
    destruct (String.eqb_spec (resp_Extra response) EmptyString); [contradiction|].
    simpl. rewrite Hin. reflexivity.
  - intros Hnone. unfold to_catcher. rewrite Hnone. destruct (negb _); reflexivity.
  - intros He. unfold to_catcher. rewrite He. reflexivity.
  - intros rest. simpl.
    rewrite (processResponse_undecoded pendingUpdateType client response e Hd).
    reflexivity.
Qed.

(** The payload cut off in transit decodes to nothing; it carries the id of
    a waiting call. *)
Lemma undecodable_response_is_dropped_witness :
  let client := set_catchersStore {[ "call-1" := [] ]} Sample.client in
  let response := Sample.response "message" "call-1" Sample.truncated in
  exists client',
    processResponse (codec := Sample.codec) [Sample.updateNewMessage] client response
    = Returned client'
    /\ listenerStore client' = listenerStore client
    /\ pendingResp client' = pendingResp client
    /\ successMsgStore client' = successMsgStore client
    /\ catchersStore client' !! "call-1" = Some [response].
Proof.
  intros client response.
  destruct (undecodable_response_is_dropped (codec := Sample.codec)
              [Sample.updateNewMessage] client response
              "unexpected end of JSON input" eq_refl)
    as (client' & Hr & Hl & Hp & Hs & Hc & _).
  exists client'. repeat split; try assumption.
  rewrite (Hc [] ltac:(discriminate) ltac:(reflexivity)).
  apply lookup_insert_eq.
Defined.

(** C8: with an empty pending-type list the worker takes the [return] of
    its first statement: it is done after one step, has changed nothing,
    and stays done; it never enters the loop that waits for a listener nor
    the loop that drains the buffer.  With a type configured and no
    listener, the worker is instead in the loop that waits. *)
Theorem worker_returns_at_once_without_pending_types {codec : Codec}
    (client : Client) (n : nat) :
  processPendingResponse_step [] client AtEntry = (client, WorkerReturned)
  /\ processPendingResponse_run [] (S n) client AtEntry = (client, WorkerReturned)
  /\ (forall p rest,
        processPendingResponse_run (p :: rest) (S n) (set_listenerStore [] client) AtEntry
        = (set_listenerStore [] client, WaitListener)).
Proof.
  split; [reflexivity|]. split.
  - simpl. induction n as [|n IH]; [reflexivity|exact IH].
  - intros p rest. simpl. induction n as [|n IH]; [reflexivity|exact IH].
Qed.

(** C10: [SetPendingUpdateType] appends its arguments to the list as they
    come, duplicates included, and with no listener registered an update is
    put on the pending buffer once for every entry of the list that has its
    tag: [n] times when the tag was configured [n] times. *)
Theorem duplicate_pending_types_enqueue_repeatedly {codec : Codec}
    (pendingUpdateType : list TypeObj) (client : Client) (response : Response)
    (typ : TypeObj) :
  UnmarshalType (resp_Data response) = Ok typ ->
  listenerStore client = [] ->
  (forall update, SetPendingUpdateType pendingUpdateType update
                  = pendingUpdateType ++ update)
  /\ (exists client',
        processResponse pendingUpdateType client response = Returned client'
        /\ pendingResp client'
           = pendingResp client
               ++ repeat response (configured_times typ pendingUpdateType))
  /\ (forall p n,
        GetType p = GetType typ ->
        exists client',
          processResponse (SetPendingUpdateType [] (repeat p n)) client response
          = Returned client'
          /\ pendingResp client' = pendingResp client ++ repeat response n).
Proof.
  intros Hd Hnil.
  assert (Happ : forall old update, SetPendingUpdateType old update = old ++ update).
  { intros old update. revert old. unfold SetPendingUpdateType.
    induction update as [|v update IH]; intros old; simpl.
    - rewrite app_nil_r. reflexivity.
    - rewrite IH, <- app_assoc. reflexivity. }
  assert (Hgen : forall pending, exists client',
             processResponse pending client response = Returned client'
             /\ pendingResp client'
                = pendingResp client ++ repeat response (configured_times typ pending)).
  { intros pending.
    destruct (processResponse_decoded pending client response typ Hd)
      as (client1 & Hs & ->).
    destruct (to_successCatcher_frame (to_catcher client response) response typ)
      as (client1' & Hs' & Hp1 & Hl1 & _).
    rewrite Hs in Hs'. injection Hs' as <-.
    destruct (to_catcher_frame client response) as (Hp0 & Hl0 & _).
    destruct (to_pendingResp_frame pending client1 response typ) as (Hp2 & Hl2 & _).
    rewrite Hl1, Hl0, Hnil in Hl2, Hp2. rewrite Hp1, Hp0 in Hp2. simpl in Hp2.
    unfold to_listeners, ListenerStore.Listeners. rewrite Hl2. simpl.
    eexists. split; [reflexivity|]. simpl. exact Hp2. }
  split; [apply Happ|]. split; [apply Hgen|].
  intros p n Hp. destruct (Hgen (SetPendingUpdateType [] (repeat p n))) as (client' & Hr & Hq).
  exists client'. split; [exact Hr|]. rewrite Hq. do 2 f_equal.
  rewrite Happ. simpl. unfold configured_times. clear Hr Hq.
  induction n as [|n IH]; simpl; [reflexivity|].
  rewrite Hp, String.eqb_refl. simpl. rewrite IH. reflexivity.
Qed.

(** The type updateNewMessage configured three times: one update of that
    type arriving before any listener is on the buffer three times. *)
Lemma duplicate_pending_types_enqueue_repeatedly_witness :
  let response := Sample.response "updateNewMessage" EmptyString Sample.new_message in
  exists client',
    processResponse (codec := Sample.codec)
      (SetPendingUpdateType [] (repeat Sample.updateNewMessage 3))
      Sample.client response
    = Returned client'
    /\ pendingResp client' = [response; response; response].
Proof.
  intros response.
  destruct (duplicate_pending_types_enqueue_repeatedly (codec := Sample.codec)
              [] Sample.client response Sample.updateNewMessage eq_refl eq_refl)
    as (_ & _ & H).
  exact (H Sample.updateNewMessage 3%nat eq_refl).
Defined.

(* ===================================================================== *)
(** ** The loop over the listeners                                        *)
(* ===================================================================== *)

Section ListenerFacts.

Lemma receives_isActive (typ : TypeObj) (l : Listener) :
  isActive (receives typ l) = isActive l.
Proof.
  unfold receives. destruct (isActive l) eqn:Ha; [|exact Ha].
  destruct (Filter l); [destruct (String.eqb _ _)|]; simpl; try exact Ha; reflexivity.
Qed.

Lemma receives_created (typ : TypeObj) (l : Listener) :
  created l -> created (receives typ l).
Proof.
  unfold created, raw_listener, filtered_listener, receives.
  intros [(Hu & Hr & Hf)|(X & Hu & Hr & Hf)].
  - left. destruct (isActive l); [|auto]. rewrite Hf. simpl.
    split; [exact Hu|]. split; [|exact Hf].
    destruct (RawUpdates l); simpl; [discriminate|congruence].
  - right. exists X. destruct (isActive l); [|auto]. rewrite Hf.
    destruct (String.eqb _ _); simpl; [|auto].
    split; [|split; [exact Hr|exact Hf]].
    destruct (Updates l); simpl; [discriminate|congruence].
Qed.

(** For a listener made by one of the two constructors the body of the loop
    does what [receives] says, and asks for a collection when the listener
    is inactive. *)
Lemma listener_body_created (typ : TypeObj) (l : Listener) (needGc : bool) :
  created l ->
  listener_body typ l needGc = Some (receives typ l, needGc || negb (isActive l)).
Proof.
  unfold created, raw_listener, filtered_listener, listener_body, receives, IsActive,
    delivery_of.
  intros [(Hu & Hr & Hf)|(X & Hu & Hr & Hf)]; rewrite Hf.
  - rewrite Hu. rewrite (bool_decide_eq_false_2 (None <> None)) by auto.
    rewrite bool_decide_eq_true_2 by exact Hr.
    destruct (isActive l); simpl; [rewrite orb_false_r|rewrite orb_true_r]; reflexivity.
  - rewrite Hr. rewrite (bool_decide_eq_false_2 (None <> None)) by auto.
    rewrite bool_decide_eq_true_2 by exact Hu.
    destruct (isActive l); simpl; [|rewrite orb_true_r; reflexivity].
    destruct (String.eqb (GetType typ) (GetType X)); simpl.
    + destruct (String.eqb _ _); rewrite orb_false_r; reflexivity.
    + rewrite orb_false_r; reflexivity.
Qed.

Lemma range_Listeners_created (typ : TypeObj) (ls : list Listener) (needGc : bool) :
  Forall created ls ->
  range_Listeners typ ls needGc
  = inl (map (receives typ) ls, needGc || existsb (fun l => negb (isActive l)) ls).
Proof.
  intros Hc. revert needGc.
  induction Hc as [|l ls Hl _ IH]; intros needGc; simpl.
  - rewrite orb_false_r. reflexivity.
  - rewrite (listener_body_created _ _ _ Hl), IH, orb_assoc. reflexivity.
Qed.

Lemma filter_all_active (ls : list Listener) :
  existsb (fun l => negb (isActive l)) ls = false -> List.filter isActive ls = ls.
Proof.
  induction ls as [|l ls IH]; simpl; [reflexivity|].
  intros H. apply orb_false_iff in H as [Hl Hls].
  destruct (isActive l); [|discriminate]. rewrite (IH Hls). reflexivity.
Qed.

Lemma existsb_inactive_map (typ : TypeObj) (ls : list Listener) :
  existsb (fun l => negb (isActive l)) (map (receives typ) ls)
  = existsb (fun l => negb (isActive l)) ls.
Proof.
  induction ls as [|l ls IH]; simpl; [reflexivity|].
  rewrite receives_isActive, IH. reflexivity.
Qed.

(** With listeners made by the constructors, the loop and the collection
    that may follow it leave the active listeners, each with what it
    receives. *)
Lemma to_listeners_created (client : Client) (typ : TypeObj) :
  Forall created (listenerStore client) ->
  to_listeners client typ
  = Returned (set_listenerStore
                (List.filter isActive (map (receives typ) (listenerStore client)))
                client).
Proof.
  intros Hc. unfold to_listeners, ListenerStore.Listeners, ListenerStore.gc.
  rewrite (range_Listeners_created _ _ _ Hc). simpl.
  destruct (existsb _ _) eqn:Hex; [reflexivity|].
  rewrite filter_all_active by (rewrite existsb_inactive_map; exact Hex).
  reflexivity.
Qed.

Lemma filter_active_map (f : Listener -> Listener) (ls : list Listener) :
  (forall l, isActive (f l) = isActive l) ->
  List.filter isActive (map f ls) = map f (List.filter isActive ls).
Proof.
  intros Hf. induction ls as [|l ls IH]; simpl; [reflexivity|].
  rewrite Hf. destruct (isActive l); simpl; rewrite IH; reflexivity.
Qed.

Lemma filter_active_idem (ls : list Listener) :
  List.filter isActive (List.filter isActive ls) = List.filter isActive ls.
Proof.
  induction ls as [|l ls IH]; simpl; [reflexivity|].
  destruct (isActive l) eqn:Ha; simpl; rewrite ?Ha, IH; reflexivity.
Qed.

Lemma receives_all_isActive (typs : list TypeObj) (l : Listener) :
  isActive (receives_all typs l) = isActive l.
Proof.
  revert l. induction typs as [|typ typs IH]; intros l; simpl; [reflexivity|].
  unfold receives_all in *. simpl. rewrite IH. apply receives_isActive.
Qed.

End ListenerFacts.

(** The whole of [processResponse] on a response that decodes, when every
    registered listener was made by one of the two constructors. *)
Lemma processResponse_created {codec : Codec} (pendingUpdateType : list TypeObj)
    (client : Client) (response : Response) (typ : TypeObj) :
  UnmarshalType (resp_Data response) = Ok typ ->
  Forall created (listenerStore client) ->
  exists client',
    processResponse pendingUpdateType client response = Returned client'
    /\ listenerStore client'
       = List.filter isActive (map (receives typ) (listenerStore client))
    /\ pendingResp client'
       = pendingResp client
           ++ (if bool_decide (listenerStore client = [])
               then repeat response (configured_times typ pendingUpdateType) else []).
Proof.
  intros Hd Hc.
  destruct (processResponse_decoded pendingUpdateType client response typ Hd)
    as (client1 & Hs & ->).
  destruct (to_successCatcher_frame (to_catcher client response) response typ)
    as (client1' & Hs' & Hp1 & Hl1 & _).
  rewrite Hs in Hs'. injection Hs' as <-.
  destruct (to_catcher_frame client response) as (Hp0 & Hl0 & _).
  destruct (to_pendingResp_frame pendingUpdateType client1 response typ)
    as (Hp2 & Hl2 & _).
  rewrite Hl1, Hl0 in Hl2, Hp2. rewrite Hp1, Hp0 in Hp2.
  rewrite to_listeners_created by (rewrite Hl2; exact Hc).
  eexists. split; [reflexivity|]. simpl. rewrite Hl2. split; [reflexivity|exact Hp2].
Qed.

(** C4: when every registered listener was made by [GetListener] or by
    [AddEventReceiver] with a type, the dispatch of a decoded update
    returns normally and leaves the active listeners, each with what it
    receives: a listener with filter X has the decoded object appended to
    its [Updates] channel exactly when the type of the object equals the
    type of X, and has nothing appended anywhere otherwise; a listener
    without filter has the decoded object appended to its [RawUpdates]
    channel, whatever its type. *)
Theorem listeners_receive_by_filter {codec : Codec} (pendingUpdateType : list TypeObj)
    (client : Client) (response : Response) (typ : TypeObj) :
  UnmarshalType (resp_Data response) = Ok typ ->
  Forall created (listenerStore client) ->
  (exists client',
     processResponse pendingUpdateType client response = Returned client'
     /\ listenerStore client'
        = List.filter isActive (map (receives typ) (listenerStore client))
     /\ (forall l, l ∈ listenerStore client -> isActive l = true ->
           receives typ l ∈ listenerStore client'))
  /\ (forall l X ch,
        filtered_listener X l -> isActive l = true -> Updates l = Some ch ->
        RawUpdates (receives typ l) = None
        /\ ((GetType typ = GetType X ->
             exists d, carried d = typ /\ Updates (receives typ l) = Some (ch ++ [d]))
            /\ (GetType typ <> GetType X -> receives typ l = l)))
  /\ (forall l ch,
        raw_listener l -> isActive l = true -> RawUpdates l = Some ch ->
        Updates (receives typ l) = None
        /\ RawUpdates (receives typ l) = Some (ch ++ [Sent typ])).
Proof.
  intros Hd Hc. split; [|split].
  - destruct (processResponse_created pendingUpdateType client response typ Hd Hc)
      as (client' & Hr & Hl & _).
    exists client'. split; [exact Hr|]. split; [exact Hl|].
    intros l Hin Ha. rewrite Hl. apply list_elem_of_In, filter_In.
    split; [|rewrite receives_isActive; exact Ha].
    apply in_map, list_elem_of_In, Hin.
  - intros l X ch (Hu & Hr & Hf) Ha Hch. unfold receives. rewrite Ha, Hf.
    destruct (String.eqb_spec (GetType typ) (GetType X)) as [He|Hne]; simpl.
    + split; [exact Hr|]. split; [|contradiction].
      intros _. exists (delivery_of typ). rewrite Hch. split; [|reflexivity].
      unfold delivery_of. destruct (String.eqb _ _); reflexivity.
    + split; [exact Hr|]. split; [contradiction|reflexivity].
  - intros l ch (Hu & Hr & Hf) Ha Hch. unfold receives. rewrite Ha, Hf. simpl.
    rewrite Hu, Hch. split; reflexivity.
Qed.

(** A listener made by [GetListener], one made by [AddEventReceiver] for
    the type updateNewMessage, and an update of that type. *)
Lemma listeners_receive_by_filter_witness :
  let client :=
    (AddEventReceiver (GetListener Sample.client).2 (Some Sample.updateNewMessage) 10).2 in
  let response := Sample.response "updateNewMessage" EmptyString Sample.new_message in
  exists client',
    processResponse (codec := Sample.codec) [] client response = Returned client'
    /\ listenerStore client'
       = [ {| isActive := true; Updates := None;
              RawUpdates := Some [Sent Sample.updateNewMessage]; Filter := None |};
           {| isActive := true; Updates := Some [Sent Sample.updateNewMessage];
              RawUpdates := None; Filter := Some Sample.updateNewMessage |} ].
Proof.
  intros client response.
  assert (Hc : Forall created (listenerStore client)).
  { constructor; [|constructor; [|constructor]].
    - left. repeat split. discriminate.
    - right. exists Sample.updateNewMessage. repeat split. discriminate. }
  destruct (listeners_receive_by_filter (codec := Sample.codec) [] client response
              Sample.updateNewMessage eq_refl Hc) as [(client' & Hr & Hl & _) _].
  exists client'. split; [exact Hr|]. rewrite Hl. reflexivity.
Defined.

(* ===================================================================== *)
(** ** The pending buffer                                                 *)
(* ===================================================================== *)

Section PendingFacts.
Context {codec : Codec}.
Variable pendingUpdateType : list TypeObj.

Lemma configured_times_pos (typ : TypeObj) (pending : list TypeObj) :
  (0 < configured_times typ pending)%nat
  <-> exists p, p ∈ pending /\ GetType p = GetType typ.
Proof.
  unfold configured_times. induction pending as [|q rest IH]; simpl.
  - split; [lia|]. intros (p & Hin & _). apply elem_of_nil in Hin. contradiction.
  - destruct (String.eqb_spec (GetType typ) (GetType q)) as [He|Hne]; simpl.
    + split; [|lia]. intros _. exists q. split; [apply elem_of_cons; auto|congruence].
    + rewrite IH. split; intros (p & Hin & Hp).
      * exists p. split; [apply elem_of_cons; auto|exact Hp].
      * exists p. split; [|exact Hp].
        apply elem_of_cons in Hin as [->|Hin]; [congruence|exact Hin].
Qed.

(** The buffer after [processResponse], however the call ends. *)
Lemma processResponse_pendingResp (client : Client) (response : Response)
    (typ : TypeObj) :
  UnmarshalType (resp_Data response) = Ok typ ->
  pendingResp (final (processResponse pendingUpdateType client response))
  = pendingResp client
      ++ (if bool_decide (listenerStore client = [])
          then repeat response (configured_times typ pendingUpdateType) else []).
Proof.
  intros Hd.
  destruct (processResponse_decoded pendingUpdateType client response typ Hd)
    as (client1 & Hs & ->).
  destruct (to_successCatcher_frame (to_catcher client response) response typ)
    as (client1' & Hs' & Hp1 & Hl1 & _).
  rewrite Hs in Hs'. injection Hs' as <-.
  destruct (to_catcher_frame client response) as (Hp0 & Hl0 & _).
  destruct (to_pendingResp_frame pendingUpdateType client1 response typ)
    as (Hp2 & Hl2 & _).
  destruct (to_listeners_frame (to_pendingResp pendingUpdateType client1 response typ) typ)
    as (Hp3 & _).
  rewrite Hp3, Hp2, Hp1, Hp0, Hl1, Hl0. reflexivity.
Qed.

Lemma decoded_cons (response : Response) (rest : list Response) :
  decoded (response :: rest)
  = match UnmarshalType (resp_Data response) with
    | Ok typ => typ :: decoded rest
    | Err _ => decoded rest
    end.
Proof.
  unfold decoded. simpl. destruct (UnmarshalType (resp_Data response)); reflexivity.
Qed.

Lemma Exists_active_receives (typ : TypeObj) (ls : list Listener) :
  Exists (fun l => isActive l = true) ls ->
  Exists (fun l => isActive l = true) (List.filter isActive (map (receives typ) ls)).
Proof.
  intros H. apply List.Exists_exists in H as (l & Hin & Ha).
  apply List.Exists_exists. exists (receives typ l).
  rewrite receives_isActive. split; [|exact Ha].
  apply filter_In. rewrite receives_isActive. split; [apply in_map, Hin|exact Ha].
Qed.

Lemma Forall_created_receives (typ : TypeObj) (ls : list Listener) :
  Forall created ls ->
  Forall created (List.filter isActive (map (receives typ) ls)).
Proof.
  intros H. induction H as [|l ls Hl _ IH]; simpl; [constructor|].
  destruct (isActive (receives typ l)); [constructor; [apply receives_created, Hl|]|];
    exact IH.
Qed.

(** The loop over the buffer: [n] buffered responses take [n] steps, and
    leave the listeners with what they receive of the decoded updates, in
    the order of the buffer. *)
Lemma drain_buffer (buffer : list Response) (client : Client) :
  pendingResp client = buffer ->
  Forall created (listenerStore client) ->
  Exists (fun l => isActive l = true) (listenerStore client) ->
  exists client',
    processPendingResponse_run pendingUpdateType (length buffer) client Drain
    = (client', Drain)
    /\ pendingResp client' = []
    /\ listenerStore client'
       = match decoded buffer with
         | [] => listenerStore client
         | typs => List.filter isActive
                     (map (receives_all typs) (listenerStore client))
         end.
Proof.
  revert client. induction buffer as [|response rest IH]; intros client Hb Hc Ha.
  - exists client. repeat split. exact Hb.
  - simpl processPendingResponse_run. rewrite Hb.
    assert (Hne : listenerStore client <> []) by (intros E; rewrite E in Ha; inversion Ha).
    destruct (UnmarshalType (resp_Data response)) as [typ|e] eqn:Hd.
    + destruct (processResponse_created pendingUpdateType (set_pendingResp rest client)
                  response typ Hd Hc) as (client1 & Hr & Hl & Hp).
      rewrite Hr. simpl in Hl, Hp.
      rewrite bool_decide_eq_false_2, app_nil_r in Hp by exact Hne.
      destruct (IH client1 Hp) as (client' & Hrun & Hp' & Hl').
      { rewrite Hl. apply Forall_created_receives, Hc. }
      { rewrite Hl. apply Exists_active_receives, Ha. }
      exists client'. split; [exact Hrun|]. split; [exact Hp'|].
      rewrite Hl', decoded_cons, Hd, Hl.
      destruct (decoded rest) as [|typ' typs]; [reflexivity|].
      rewrite (filter_active_map (receives_all (typ' :: typs)))
        by (intros; apply receives_all_isActive).
      rewrite filter_active_idem.
      rewrite <- (filter_active_map (receives_all (typ' :: typs)))
        by (intros; apply receives_all_isActive).
      rewrite map_map. reflexivity.
    + rewrite (processResponse_undecoded pendingUpdateType _ response e Hd).
      destruct (to_catcher_frame (set_pendingResp rest client) response)
        as (Hp & Hl & _).
      simpl in Hl, Hp.
      destruct (IH (to_catcher (set_pendingResp rest client) response) Hp)
        as (client' & Hrun & Hp' & Hl').
      { rewrite Hl. exact Hc. }
      { rewrite Hl. exact Ha. }
      exists client'. split; [exact Hrun|]. split; [exact Hp'|].
      rewrite Hl', Hl, decoded_cons, Hd. reflexivity.
Qed.

End PendingFacts.

(* ===================================================================== *)
(** ** The registry holds listeners made by the constructors              *)
(* ===================================================================== *)

Section RegistryFacts.
Context {codec : Codec}.

Lemma NewClient_no_listener : listenerStore (NewClient []) = [].
Proof. reflexivity. Qed.

Lemma GetListener_created (client : Client) :
  Forall created (listenerStore client) ->
  created (GetListener client).1
  /\ Forall created (listenerStore (GetListener client).2).
Proof.
  intros H.
  assert (Hnew : created (GetListener client).1).
  { left. repeat split. discriminate. }
  split; [exact Hnew|]. simpl. unfold ListenerStore.Add.
  apply Forall_app. split; [exact H|]. constructor; [exact Hnew|constructor].
Qed.

Lemma AddEventReceiver_created (client : Client) (X : TypeObj) (capacity : Z) :
  Forall created (listenerStore client) ->
  created (AddEventReceiver client (Some X) capacity).1
  /\ Forall created (listenerStore (AddEventReceiver client (Some X) capacity).2).
Proof.
  intros H.
  assert (Hnew : created (AddEventReceiver client (Some X) capacity).1).
  { right. exists X. repeat split. discriminate. }
  split; [exact Hnew|]. simpl. unfold ListenerStore.Add.
  apply Forall_app. split; [exact H|]. constructor; [exact Hnew|constructor].
Qed.

Lemma processResponse_keeps_created (pendingUpdateType : list TypeObj)
    (client : Client) (response : Response) :
  Forall created (listenerStore client) ->
  Forall created
    (listenerStore (final (processResponse pendingUpdateType client response))).
Proof.
  intros H. destruct (UnmarshalType (resp_Data response)) as [typ|message] eqn:Hd.
  - destruct (processResponse_created pendingUpdateType client response typ Hd H)
      as (client' & -> & Hl & _).
    simpl. rewrite Hl. apply Forall_created_receives, H.
  - rewrite (processResponse_undecoded pendingUpdateType client response message Hd).
    simpl. destruct (to_catcher_frame client response) as (_ & -> & _). exact H.
Qed.

End RegistryFacts.

(** *** Registries whose listeners have all been closed *)

Section ClosedListeners.
Context {codec : Codec}.
Variable pendingUpdateType : list TypeObj.

(** A closed listener is sent nothing and asks for the collection. *)
Lemma listener_body_inactive (typ : TypeObj) (listener : Listener) (needGc : bool) :
  isActive listener = false ->
  listener_body typ listener needGc = Some (listener, true).
Proof.
  intros Hi. unfold listener_body, IsActive. rewrite Hi. reflexivity.
Qed.

Lemma range_Listeners_inactive (typ : TypeObj) (ls : list Listener) (needGc : bool) :
  Forall (fun l => isActive l = false) ls ->
  range_Listeners typ ls needGc
  = inl (ls, match ls with [] => needGc | _ :: _ => true end).
Proof.
  intros H. revert needGc. induction H as [|l ls Hl Hls IH]; intros needGc;
    [reflexivity|].
  simpl. rewrite (listener_body_inactive typ l needGc Hl), IH.
  destruct ls; reflexivity.
Qed.

Lemma filter_inactive (ls : list Listener) :
  Forall (fun l => isActive l = false) ls -> List.filter IsActive ls = [].
Proof.
  intros H. induction H as [|l ls Hl _ IH]; [reflexivity|].
  simpl. unfold IsActive at 1. rewrite Hl. exact IH.
Qed.

(** The dispatcher on a registry without active listener: the call
    returns, and the registry is empty afterwards. *)
Lemma processResponse_inactive (client : Client) (response : Response)
    (typ : TypeObj) :
  UnmarshalType (resp_Data response) = Ok typ ->
  Forall (fun l => isActive l = false) (listenerStore client) ->
  exists client',
    processResponse pendingUpdateType client response = Returned client'
    /\ listenerStore client' = []
    /\ pendingResp client'
       = pendingResp client
           ++ (if bool_decide (listenerStore client = [])
               then repeat response (configured_times typ pendingUpdateType) else []).
Proof.
  intros Hd Hi.
  pose proof (processResponse_pendingResp pendingUpdateType client response typ Hd)
    as Hp.
  destruct (processResponse_decoded pendingUpdateType client response typ Hd)
    as (client1 & Hs & Hr).
  rewrite Hr in Hp |- *.
  destruct (to_successCatcher_frame (to_catcher client response) response typ)
    as (client1' & Hs' & _ & Hl1 & _).
  rewrite Hs in Hs'. injection Hs' as <-.
  destruct (to_catcher_frame client response) as (_ & Hl0 & _).
  destruct (to_pendingResp_frame pendingUpdateType client1 response typ)
    as (_ & Hl2 & _).
  rewrite Hl1, Hl0 in Hl2.
  unfold to_listeners in Hp |- *. unfold ListenerStore.Listeners in Hp |- *.
  rewrite Hl2 in Hp |- *.
  rewrite (range_Listeners_inactive typ (listenerStore client) false Hi) in Hp |- *.
  destruct (listenerStore client) as [|l ls] eqn:Hls.
  - eexists. split; [reflexivity|]. split; [reflexivity|exact Hp].
  - eexists. split; [reflexivity|]. split; [|exact Hp].
    exact (filter_inactive (l :: ls) Hi).
Qed.

(** With an empty registry the worker stays in its loop over the buffer and
    the registry stays empty, whatever is on the buffer. *)
Lemma drain_without_listener (n : nat) (client : Client) :
  listenerStore client = [] ->
  exists client',
    processPendingResponse_run pendingUpdateType n client Drain = (client', Drain)
    /\ listenerStore client' = [].
Proof.
  revert client. induction n as [|n IH]; intros client Hl.
  - exists client. split; [reflexivity|exact Hl].
  - simpl processPendingResponse_run.
    destruct (pendingResp client) as [|response rest] eqn:Hb; [apply IH, Hl|].
    destruct (UnmarshalType (resp_Data response)) as [typ|e] eqn:Hd.
    + destruct (processResponse_inactive (set_pendingResp rest client) response typ Hd)
        as (client1 & Hr & Hl1 & _).
      { simpl. rewrite Hl. constructor. }
      rewrite Hr. apply IH, Hl1.
    + rewrite (processResponse_undecoded pendingUpdateType _ response e Hd).
      apply IH.
      destruct (to_catcher_frame (set_pendingResp rest client) response)
        as (_ & Hl1 & _).
      rewrite Hl1. exact Hl.
Qed.

End ClosedListeners.

(** C5, amended: an update that decodes is put on the pending buffer
    exactly when no listener is registered and its type is in the
    configured list, and then at the end of the buffer.  When the worker
    finds listeners registered (each made by [GetListener] or by
    [AddEventReceiver] with a type) of which at least one is active, it
    takes the buffered updates in their order of arrival through the same
    dispatch as fresh updates and leaves the buffer empty: each update
    reaches every active listener that accepts its type, that is every
    listener without filter and every listener whose filter has its type,
    and no other.  When the worker finds listeners registered that have all
    been closed, the first buffered update is dispatched to no listener and
    is gone from the buffer, the closed listeners are taken out of the
    registry, and from then on, while nothing else runs, the worker stays
    in its loop with an empty registry: no buffered update reaches a
    listener. *)
Theorem pending_buffer_keeps_and_reroutes {codec : Codec}
    (pendingUpdateType : list TypeObj) (client : Client) :
  (forall response typ,
     UnmarshalType (resp_Data response) = Ok typ ->
     let client' := final (processResponse pendingUpdateType client response) in
     pendingResp client'
     = pendingResp client
         ++ (if bool_decide (listenerStore client = [])
             then repeat response (configured_times typ pendingUpdateType) else [])
     /\ (pendingResp client' <> pendingResp client
         <-> listenerStore client = []
             /\ exists p, p ∈ pendingUpdateType /\ GetType p = GetType typ))
  /\ (Forall created (listenerStore client) ->
      Exists (fun l => isActive l = true) (listenerStore client) ->
      exists client',
        processPendingResponse_run pendingUpdateType
          (S (length (pendingResp client))) client WaitListener
        = (client', Drain)
        /\ pendingResp client' = []
        /\ listenerStore client'
           = match decoded (pendingResp client) with
             | [] => listenerStore client
             | typs => List.filter isActive
                         (map (receives_all typs) (listenerStore client))
             end)
  /\ (forall response rest typ,
        listenerStore client <> [] ->
        Forall (fun l => isActive l = false) (listenerStore client) ->
        pendingResp client = response :: rest ->
        UnmarshalType (resp_Data response) = Ok typ ->
        exists client',
          processPendingResponse_run pendingUpdateType 2 client WaitListener
          = (client', Drain)
          /\ listenerStore client' = []
          /\ pendingResp client' = rest
          /\ forall n, exists client'',
               processPendingResponse_run pendingUpdateType n client' Drain
               = (client'', Drain)
               /\ listenerStore client'' = []).
Proof.
  split; [|split].
  - intros response typ Hd client'. subst client'.
    rewrite (processResponse_pendingResp pendingUpdateType client response typ Hd).
    split; [reflexivity|].
    rewrite <- configured_times_pos.
    destruct (decide (listenerStore client = [])) as [Hnil|Hne].
    + rewrite bool_decide_eq_true_2 by exact Hnil.
      destruct (configured_times typ pendingUpdateType) as [|n]; simpl.
      * rewrite app_nil_r. split; [congruence|]. intros [_ H]. lia.
      * split; [intros _; split; [exact Hnil|lia]|].
        intros _ H. apply (f_equal length) in H.
        rewrite length_app in H. simpl in H. lia.
    + rewrite bool_decide_eq_false_2 by exact Hne. rewrite app_nil_r.
      split; [congruence|]. intros [H _]. contradiction.
  - intros Hc Ha. simpl processPendingResponse_run.
    unfold ListenerStore.Listeners.
    destruct (listenerStore client) as [|l ls] eqn:Hls; [inversion Ha|].
    simpl Nat.ltb. cbv iota. rewrite <- Hls in *.
    apply (drain_buffer pendingUpdateType (pendingResp client) client eq_refl Hc Ha).
  - intros response rest typ Hne Hi Hb Hd.
    simpl processPendingResponse_run. unfold ListenerStore.Listeners.
    destruct (listenerStore client) as [|l ls] eqn:Hls; [contradiction|].
    change (0 <? length (l :: ls))%nat with true. cbv beta iota.
    unfold processPendingResponse_step. rewrite Hb.
    destruct (processResponse_inactive pendingUpdateType (set_pendingResp rest client)
                response typ Hd) as (client1 & Hr & Hl1 & Hp1).
    { simpl. rewrite Hls. exact Hi. }
    rewrite Hr. simpl in Hp1. rewrite Hls in Hp1.
    rewrite bool_decide_eq_false_2, app_nil_r in Hp1 by discriminate.
    exists client1. split; [reflexivity|]. split; [exact Hl1|]. split; [exact Hp1|].
    intros n. apply drain_without_listener. exact Hl1.
Qed.

(** The type updateNewMessage is configured; two updates of that type come
    in before any listener and are kept; then [GetListener] registers a
    listener, and the worker hands both to it in their order.  When the
    listener has been closed before the worker looks, the first update is
    gone, the second is still on the buffer, and the registry is empty. *)
Lemma pending_buffer_keeps_and_reroutes_witness :
  let pending := [Sample.updateNewMessage] in
  let first := Sample.response "updateNewMessage" "first" Sample.new_message in
  let second := Sample.response "updateNewMessage" "second" Sample.new_message in
  let kept :=
    final (processResponse (codec := Sample.codec) pending
             (final (processResponse (codec := Sample.codec) pending
                       Sample.client first))
             second) in
  let client := (GetListener kept).2 in
  pendingResp kept = [first; second]
  /\ (exists client',
        processPendingResponse_run (codec := Sample.codec) pending 3 client WaitListener
        = (client', Drain)
        /\ pendingResp client' = []
        /\ listenerStore client'
           = [ {| isActive := true; Updates := None;
                  RawUpdates := Some [Sent Sample.updateNewMessage;
                                      Sent Sample.updateNewMessage];
                  Filter := None |} ])
  /\ (exists client',
        processPendingResponse_run (codec := Sample.codec) pending 2
          (close_listener 0 client) WaitListener
        = (client', Drain)
        /\ listenerStore client' = []
        /\ pendingResp client' = [second]
        /\ exists client'',
             processPendingResponse_run (codec := Sample.codec) pending 50 client' Drain
             = (client'', Drain)
             /\ listenerStore client'' = []).
Proof.
  intros pending first second kept client.
  destruct (pending_buffer_keeps_and_reroutes (codec := Sample.codec) pending
              (final (processResponse (codec := Sample.codec) pending
                        Sample.client first)))
    as (Hkeep & _ & _).
  destruct (pending_buffer_keeps_and_reroutes (codec := Sample.codec) pending client)
    as (_ & Hdrain & _).
  destruct (pending_buffer_keeps_and_reroutes (codec := Sample.codec) pending
              (close_listener 0 client))
    as (_ & _ & Hclosed).
  split; [|split].
  - exact (proj1 (Hkeep second Sample.updateNewMessage eq_refl)).
  - destruct Hdrain as (client' & Hrun & Hp & Hl).
    + constructor; [|constructor]. left. repeat split. discriminate.
    + constructor. reflexivity.
    + exists client'. split; [exact Hrun|]. split; [exact Hp|]. rewrite Hl. reflexivity.
  - destruct (Hclosed first [second] Sample.updateNewMessage) as (client' & Hrun & Hl & Hp & Hn).
    + discriminate.
    + constructor; [reflexivity|constructor].
    + reflexivity.
    + reflexivity.
    + exists client'. split; [exact Hrun|]. split; [exact Hl|]. split; [exact Hp|].
      exact (Hn 50%nat).
Defined.

(** C5 as stated fails: with updateNewMessage configured, an update of
    that type is buffered before any listener exists; the first listener
    is then made by [AddEventReceiver] for updateUserStatus; the worker
    empties the buffer, and the update is on no channel. *)
Lemma buffered_update_can_reach_no_listener :
  ~ every_buffered_update_reaches_a_listener.
Proof.
  intros H.
  pose (pending := [Sample.updateNewMessage]).
  pose (response := Sample.response "updateNewMessage" EmptyString Sample.new_message).
  pose (kept := final (processResponse (codec := Sample.codec) pending Sample.client response)).
  pose (client := (AddEventReceiver kept (Some Sample.updateUserStatus) 10).2).
  specialize (H Sample.codec pending client response Sample.updateNewMessage).
  assert (Hl : listenerStore
                 (processPendingResponse_run (codec := Sample.codec) pending
                    (S (length (pendingResp client))) client WaitListener).1
               = [ {| isActive := true; Updates := Some []; RawUpdates := None;
                      Filter := Some Sample.updateUserStatus |} ]) by reflexivity.
  destruct H as (listener & ch & d & Hin & Hch & Hd & _).
  - apply list_elem_of_singleton. reflexivity.
  - reflexivity.
  - constructor; [|constructor]. right. exists Sample.updateUserStatus.
    repeat split. discriminate.
  - constructor; [reflexivity|constructor].
  - discriminate.
  - rewrite Hl in Hin. apply list_elem_of_singleton in Hin. subst listener.
    simpl in Hch. destruct Hch as [Hch|Hch]; [|discriminate].
    injection Hch as <-. apply elem_of_nil in Hd. exact Hd.
Qed.

(* ===================================================================== *)
(** ** Send                                                               *)
(* ===================================================================== *)

(** An effect cannot be in a trace that lists only other effects. *)
Ltac absent_from_trace H :=
  repeat (apply elem_of_cons in H as [H|H]; [discriminate|]);
  apply elem_of_nil in H; contradiction.

Section SelectFacts.
Context {A : Type}.

Lemma select_receives (arrival : option (Z * A)) (timeout : Z) (tie : bool)
    (t : Z) (a : A) :
  arrival = Some (t, a) -> Z.max 0 t < timeout ->
  select_with_timeout arrival timeout tie = Received a.
Proof.
  intros -> Hlt. unfold select_with_timeout.
  destruct (Z.ltb_spec (Z.max 0 t) (Z.max 0 timeout)); [reflexivity|lia].
Qed.

Lemma select_times_out (arrival : option (Z * A)) (timeout : Z) (tie : bool) :
  (arrival = None \/ exists t a, arrival = Some (t, a) /\ Z.max 0 timeout < t) ->
  select_with_timeout arrival timeout tie = TimedOut.
Proof.
  intros [->|(t & a & -> & Hlt)]; [reflexivity|]. unfold select_with_timeout.
  destruct (Z.ltb_spec (Z.max 0 t) (Z.max 0 timeout)); [lia|].
  destruct (Z.ltb_spec (Z.max 0 timeout) (Z.max 0 t)); [reflexivity|lia].
Qed.

End SelectFacts.

Section SendFacts.
Context {codec : Codec}.

(** The test of line 205, as a proposition. *)
Lemma patch_applies_test (client : Client) (req : Request) (extra : string)
    (response : Response) :
  negb (DisablePatch client)
  && negb (String.eqb (resp_Type response) "error")
  && String.eqb (req_Type (Request_set_Extra req extra)) "sendMessage" = true
  <-> patch_applies client req response.
Proof.
  unfold patch_applies. simpl.
  rewrite !andb_true_iff, !negb_true_iff, String.eqb_eq, String.eqb_neq.
  tauto.
Qed.

Lemma text_or_dice_test (m : Message) :
  String.eqb (MessageContentType (Content m)) "messageText"
  || String.eqb (MessageContentType (Content m)) "messageDice" = true
  <-> text_or_dice m.
Proof.
  unfold text_or_dice. rewrite orb_true_iff, !String.eqb_eq. tauto.
Qed.

(** [Send] when the wait for the response times out. *)
Lemma Send_TimedOut (client : Client) (req : Request) (env : Surroundings) :
  select_with_timeout (on_catcher env) (catchTimeout client) (tie_catcher env)
  = TimedOut ->
  (Send client req env).1 = (None, Some (errors_New "response catching timeout")).
Proof. intros H. unfold Send. rewrite H. reflexivity. Qed.

(** [Send] when the patch does not apply. *)
Lemma Send_unpatched (client : Client) (req : Request) (env : Surroundings)
    (response : Response) :
  select_with_timeout (on_catcher env) (catchTimeout client) (tie_catcher env)
  = Received response ->
  ~ patch_applies client req response ->
  Send client req env
  = ((Some response, None),
     [catchersStore_Store (generated_extra env);
      jsonClient_Send (Request_set_Extra req (generated_extra env));
      wait_catcher (catchTimeout client);
      catchersStore_Delete (generated_extra env)]).
Proof.
  intros H Hn. unfold Send. rewrite H.
  destruct (_ && _ && _) eqn:Ht; [|reflexivity].
  apply patch_applies_test in Ht. contradiction.
Qed.

(** [Send] when the patch applies and the response is not a message. *)
Lemma Send_undecodable (client : Client) (req : Request) (env : Surroundings)
    (response : Response) (message : string) :
  select_with_timeout (on_catcher env) (catchTimeout client) (tie_catcher env)
  = Received response ->
  patch_applies client req response ->
  UnmarshalMessage (resp_Data response) = Err message ->
  Send client req env
  = ((None, Some (decoder_error message)),
     [catchersStore_Store (generated_extra env);
      jsonClient_Send (Request_set_Extra req (generated_extra env));
      wait_catcher (catchTimeout client);
      catchersStore_Delete (generated_extra env)]).
Proof.
  intros H Ha Hd. unfold Send. rewrite H.
  apply (patch_applies_test client req (generated_extra env)) in Ha.
  rewrite Ha, Hd. reflexivity.
Qed.

(** [Send] when the patch applies to a message that is neither text nor
    dice. *)
Lemma Send_other_content (client : Client) (req : Request) (env : Surroundings)
    (response : Response) (m : Message) :
  select_with_timeout (on_catcher env) (catchTimeout client) (tie_catcher env)
  = Received response ->
  patch_applies client req response ->
  UnmarshalMessage (resp_Data response) = Ok m ->
  ~ text_or_dice m ->
  Send client req env
  = ((Some response, None),
     [catchersStore_Store (generated_extra env);
      jsonClient_Send (Request_set_Extra req (generated_extra env));
      wait_catcher (catchTimeout client);
      catchersStore_Delete (generated_extra env)]).
Proof.
  intros H Ha Hd Hn. unfold Send. rewrite H.
  apply (patch_applies_test client req (generated_extra env)) in Ha.
  rewrite Ha, Hd.
  destruct (_ || _) eqn:Ht; [|reflexivity].
  apply text_or_dice_test in Ht. contradiction.
Qed.

(** [Send] in the patch sub-flow: the result depends on the second wait and
    on the decoding of what it receives; the trace does not. *)
Lemma Send_subflow (client : Client) (req : Request) (env : Surroundings)
    (response : Response) (m : Message) :
  select_with_timeout (on_catcher env) (catchTimeout client) (tie_catcher env)
  = Received response ->
  patch_applies client req response ->
  UnmarshalMessage (resp_Data response) = Ok m ->
  text_or_dice m ->
  Send client req env
  = ((Some
        match select_with_timeout (on_successCatcher env) (1 * Second)
                (tie_successCatcher env) with
        | Received modResponse =>
            match UnmarshalUpdateMessageSendSucceeded (resp_Data modResponse) with
            | Ok m2 =>
                Response_set_Data response
                  (Replace (Replace (resp_Data response) PendingMarker SucceededMarker 1)
                     (IdField (Id m)) (IdField (Id (Message_ m2))) 1)
            | Err _ => response
            end
        | TimedOut => response
        end, None),
     [catchersStore_Store (generated_extra env);
      jsonClient_Send (Request_set_Extra req (generated_extra env));
      wait_catcher (catchTimeout client);
      successMsgStore_Store (Id m);
      wait_successCatcher (1 * Second);
      successMsgStore_Delete (Id m);
      catchersStore_Delete (generated_extra env)]).
Proof.
  intros H Ha Hd Ht. unfold Send. rewrite H.
  apply (patch_applies_test client req (generated_extra env)) in Ha.
  apply text_or_dice_test in Ht.
  rewrite Ha, Hd, Ht.
  destruct (select_with_timeout (on_successCatcher env) _ _) as [modResponse|];
    [|reflexivity].
  destruct (UnmarshalUpdateMessageSendSucceeded _); reflexivity.
Qed.

Lemma patch_applies_dec (client : Client) (req : Request) (response : Response) :
  patch_applies client req response \/ ~ patch_applies client req response.
Proof.
  destruct (negb (DisablePatch client)
            && negb (String.eqb (resp_Type response) "error")
            && String.eqb (req_Type (Request_set_Extra req EmptyString)) "sendMessage")
    eqn:Ht.
  - left. apply (patch_applies_test _ _ EmptyString), Ht.
  - right. intros H. apply (patch_applies_test _ _ EmptyString) in H. congruence.
Qed.

Lemma text_or_dice_dec (m : Message) : text_or_dice m \/ ~ text_or_dice m.
Proof.
  destruct (String.eqb (MessageContentType (Content m)) "messageText"
            || String.eqb (MessageContentType (Content m)) "messageDice") eqn:Ht.
  - left. apply text_or_dice_test, Ht.
  - right. intros H. apply text_or_dice_test in H. congruence.
Qed.

Lemma no_subflow_in_short_trace (a b : string) (req : Request) (timeout : Z) :
  ~ patch_subflow_ran
      [catchersStore_Store a; jsonClient_Send req; wait_catcher timeout;
       catchersStore_Delete b].
Proof. intros [_ H]. absent_from_trace H. Qed.

Lemma subflow_in_long_trace (a b : string) (req : Request) (timeout : Z) (id : Z) :
  patch_subflow_ran
    [catchersStore_Store a; jsonClient_Send req; wait_catcher timeout;
     successMsgStore_Store id; wait_successCatcher (1 * Second);
     successMsgStore_Delete id; catchersStore_Delete b].
Proof.
  split; [exists id|]; repeat (apply elem_of_cons; first [left; reflexivity|right]).
Qed.

(** The dispatcher changes the catcher store in its first step only. *)
Lemma processResponse_catchersStore (pendingUpdateType : list TypeObj)
    (client : Client) (response : Response) :
  catchersStore (final (processResponse pendingUpdateType client response))
  = catchersStore (to_catcher client response).
Proof.
  destruct (UnmarshalType (resp_Data response)) as [typ|e] eqn:Hd.
  - destruct (processResponse_decoded pendingUpdateType client response typ Hd)
      as (client1 & Hs & ->).
    destruct (to_successCatcher_frame (to_catcher client response) response typ)
      as (client1' & Hs' & _ & _ & Hc1 & _).
    rewrite Hs in Hs'. injection Hs' as <-.
    destruct (to_pendingResp_frame pendingUpdateType client1 response typ)
      as (_ & _ & Hc2 & _).
    destruct (to_listeners_frame (to_pendingResp pendingUpdateType client1 response typ) typ)
      as (_ & Hc3 & _).
    rewrite Hc3, Hc2, Hc1. reflexivity.
  - unfold processResponse. rewrite Hd. reflexivity.
Qed.

(** The dispatcher changes the secondary store in its third step only. *)
Lemma processResponse_successMsgStore (pendingUpdateType : list TypeObj)
    (client : Client) (response : Response) (typ : TypeObj) (id : Z)
    (ch : list Response) :
  UnmarshalType (resp_Data response) = Ok typ ->
  successMsgStore client !! id = Some ch ->
  successMsgStore (final (processResponse pendingUpdateType client response)) !! id
  = Some (match typ with
          | AsUpdateMessageSendSucceeded u =>
              if negb (DisablePatch client) && bool_decide (OldMessageId u = id)
              then ch ++ [response] else ch
          | OtherClass _ _ => ch
          end).
Proof.
  intros Hd Hin.
  destruct (processResponse_decoded pendingUpdateType client response typ Hd)
    as (client1 & Hs & ->).
  destruct (to_catcher_frame client response) as (_ & _ & Hs0 & Hd0 & _).
  destruct (to_pendingResp_frame pendingUpdateType client1 response typ)
    as (_ & _ & _ & Hs2 & _).
  destruct (to_listeners_frame (to_pendingResp pendingUpdateType client1 response typ) typ)
    as (_ & _ & Hs3 & _).
  rewrite Hs3, Hs2.
  rewrite <- Hs0 in Hin.
  rewrite (to_successCatcher_store _ _ _ _ _ _ Hs Hin), Hd0. reflexivity.
Qed.

(** Responses that carry other correlation ids leave the catcher of a call
    as it is, however the receiver ends. *)
Lemma receiver_loop_other_ids (pendingUpdateType : list TypeObj)
    (queue : list Response) (client : Client) (extra : string)
    (catcher : list Response) :
  catchersStore client !! extra = Some catcher ->
  Forall (fun response => resp_Extra response <> extra) queue ->
  catchersStore (final (receiver_loop pendingUpdateType queue client)) !! extra
  = Some catcher.
Proof.
  intros Hin Hall. revert client Hin.
  induction Hall as [|response rest Hne _ IH]; intros client Hin; [exact Hin|].
  simpl.
  assert (Hstep : catchersStore
                    (final (processResponse pendingUpdateType client response))
                    !! extra = Some catcher).
  { rewrite processResponse_catchersStore, (to_catcher_store _ _ _ _ Hin).
    rewrite bool_decide_eq_false_2; [reflexivity|]. intros [He _]. contradiction. }
  destruct (processResponse pendingUpdateType client response) as [client'|client'].
  - apply IH, Hstep.
  - exact Hstep.
Qed.

End SendFacts.

(** When [Send] has returned, the entries it stored are gone: the
    deferred calls delete the catcher, and the secondary entry if one was
    stored. *)
Lemma Send_removes_its_entries {codec : Codec}
    (client : Client) (req : Request) (env : Surroundings) :
  let after := fold_left apply_Effect (Send client req env).2 client in
  catchersStore after !! generated_extra env = None
  /\ (forall id, successMsgStore_Store id ∈ (Send client req env).2 ->
        successMsgStore after !! id = None).
Proof.
  unfold Send.
  destruct (select_with_timeout (on_catcher env) _ _) as [response|].
  2: { simpl. split; [apply lookup_delete_eq|].
       intros id H. absent_from_trace H. }
  destruct (_ && _ && _).
  2: { simpl. split; [apply lookup_delete_eq|].
       intros id H. absent_from_trace H. }
  destruct (UnmarshalMessage (resp_Data response)) as [m|message].
  2: { simpl. split; [apply lookup_delete_eq|].
       intros id H. absent_from_trace H. }
  destruct (_ || _).
  2: { simpl. split; [apply lookup_delete_eq|].
       intros id H. absent_from_trace H. }
  assert (Hlong : forall r : option Response * option error,
            let effects :=
              [catchersStore_Store (generated_extra env);
               jsonClient_Send (Request_set_Extra req (generated_extra env));
               wait_catcher (catchTimeout client);
               successMsgStore_Store (Id m); wait_successCatcher (1 * Second);
               successMsgStore_Delete (Id m);
               catchersStore_Delete (generated_extra env)] in
            catchersStore (fold_left apply_Effect (r, effects).2 client)
              !! generated_extra env = None
            /\ (forall id, successMsgStore_Store id ∈ (r, effects).2 ->
                  successMsgStore (fold_left apply_Effect (r, effects).2 client) !! id
                  = None)).
  { intros r. simpl. split; [apply lookup_delete_eq|].
    intros id H. do 3 (apply elem_of_cons in H as [H|H]; [discriminate|]).
    apply elem_of_cons in H as [H|H].
    - injection H as ->. apply lookup_delete_eq.
    - absent_from_trace H. }
  destruct (select_with_timeout (on_successCatcher env) _ _) as [modResponse|];
    [destruct (UnmarshalUpdateMessageSendSucceeded _)|]; apply Hlong.
Qed.

(** C1: a call whose catcher is offered nothing before the catch timeout
    has run out returns the error of the timeout and no response; a call
    whose catcher is offered a response before the timeout runs out never
    returns that error.  The dispatcher offers a response on the catcher of
    a call exactly when the response carries the correlation id of the
    call, so that a stream of responses with other ids leaves the catcher
    as it is.  A client made without options waits 60 seconds, and
    [WithCatchTimeout] sets another bound. *)
Theorem Send_times_out_exactly_without_response {codec : Codec}
    (client : Client) (req : Request) (env : Surroundings) :
  ((on_catcher env = None
    \/ exists t response,
         on_catcher env = Some (t, response) /\ Z.max 0 (catchTimeout client) < t) ->
   (Send client req env).1 = (None, Some (errors_New "response catching timeout")))
  /\ (forall t response,
        on_catcher env = Some (t, response) -> Z.max 0 t < catchTimeout client ->
        (Send client req env).1.2 <> Some (errors_New "response catching timeout"))
  /\ (forall pendingUpdateType dispatching response catcher,
        catchersStore dispatching !! generated_extra env = Some catcher ->
        catchersStore (final (processResponse pendingUpdateType dispatching response))
          !! generated_extra env
        = Some (if bool_decide (resp_Extra response = generated_extra env
                                /\ generated_extra env <> EmptyString)
                then catcher ++ [response] else catcher))
  /\ (forall pendingUpdateType dispatching queue catcher,
        catchersStore dispatching !! generated_extra env = Some catcher ->
        Forall (fun response => resp_Extra response <> generated_extra env) queue ->
        catchersStore (final (receiver_loop pendingUpdateType queue dispatching))
          !! generated_extra env
        = Some catcher)
  /\ catchTimeout (NewClient []) = 60 * Second
  /\ (forall timeout, catchTimeout (NewClient [WithCatchTimeout timeout]) = timeout).
Proof.
  split; [|split; [|split; [|split; [|split]]]].
  - intros H. apply Send_TimedOut, select_times_out, H.
  - intros t response Harr Hlt.
    pose proof (select_receives _ _ (tie_catcher env) _ _ Harr Hlt) as Hsel.
    destruct (patch_applies_dec client req response) as [Ha|Hn].
    + destruct (UnmarshalMessage (resp_Data response)) as [m|message] eqn:Hd.
      * destruct (text_or_dice_dec m) as [Ht|Ht].
        -- rewrite (Send_subflow _ _ _ _ _ Hsel Ha Hd Ht). discriminate.
        -- rewrite (Send_other_content _ _ _ _ _ Hsel Ha Hd Ht). discriminate.
      * rewrite (Send_undecodable _ _ _ _ _ Hsel Ha Hd). discriminate.
    + rewrite (Send_unpatched _ _ _ _ Hsel Hn). discriminate.
  - intros pendingUpdateType dispatching response catcher Hin.
    rewrite processResponse_catchersStore. apply to_catcher_store, Hin.
  - intros pendingUpdateType dispatching queue catcher Hin Hall.
    apply receiver_loop_other_ids; assumption.
  - reflexivity.
  - reflexivity.
Qed.

(** A client with the default bound of 60 seconds: nothing comes and the
    call times out; the answer comes after two seconds and the call does
    not time out. *)
Lemma Send_times_out_exactly_without_response_witness :
  let answer := Sample.response "message" "call-1" Sample.pending_message in
  let silent := {| generated_extra := "call-1"; on_catcher := None;
                   on_successCatcher := None;
                   tie_catcher := true; tie_successCatcher := true |} in
  let answered := {| generated_extra := "call-1";
                     on_catcher := Some (2 * Second, answer);
                     on_successCatcher := None;
                     tie_catcher := true; tie_successCatcher := true |} in
  (Send (codec := Sample.codec) Sample.client Sample.sendMessage silent).1
  = (None, Some (errors_New "response catching timeout"))
  /\ (Send (codec := Sample.codec) Sample.client Sample.sendMessage answered).1.2
     <> Some (errors_New "response catching timeout")
  /\ catchersStore
       (final (processResponse (codec := Sample.codec) []
                 (set_catchersStore {[ "call-1" := [] ]} Sample.client) answer))
       !! "call-1"
     = Some [answer].
Proof.
  intros answer silent answered.
  destruct (Send_times_out_exactly_without_response (codec := Sample.codec)
              Sample.client Sample.sendMessage silent) as (Hsilent & _).
  destruct (Send_times_out_exactly_without_response (codec := Sample.codec)
              Sample.client Sample.sendMessage answered) as (_ & Hanswered & Hlink & _).
  split; [apply Hsilent; left; reflexivity|].
  split; [apply (Hanswered (2 * Second) answer eq_refl); reflexivity|].
  apply (Hlink [] (set_catchersStore {[ "call-1" := [] ]} Sample.client) answer []).
  apply lookup_insert_eq.
Defined.

(** C2: in the patch sub-flow, when the succeeded event is offered before
    the second has run out and decodes, [Send] returns no error and the
    response with its type and correlation id as they were and with a
    payload that is the original payload after two replacements, each of a
    first occurrence only and each leaving the text around it as it was
    (lines 226-227).  The texts are written out here as the source has
    them, with [q] for the double quote: the first replacement puts
    q@type q:q updateMessageSendSucceeded q in the place of
    q@type q:q messageSendingStatePending q, the second puts q id q: and
    the decimal digits of the id of the succeeded event's message in the
    place of q id q: and the decimal digits of the temporary id.  When no
    event is offered before the second has run out, or the event does not
    decode, [Send] returns the response as it came and no error.  The
    dispatcher offers an event on the secondary entry of the call exactly
    when the patch is enabled and the event is a send-succeeded update
    whose old message id is the temporary id. *)
Theorem Send_patches_marker_and_id {codec : Codec}
    (client : Client) (req : Request) (env : Surroundings)
    (t0 : Z) (response : Response) (m : Message) :
  on_catcher env = Some (t0, response) ->
  Z.max 0 t0 < catchTimeout client ->
  patch_applies client req response ->
  UnmarshalMessage (resp_Data response) = Ok m ->
  text_or_dice m ->
  (forall t modResponse m2,
     on_successCatcher env = Some (t, modResponse) ->
     Z.max 0 t < 1 * Second ->
     UnmarshalUpdateMessageSendSucceeded (resp_Data modResponse) = Ok m2 ->
     let q := String "034"%char EmptyString in
     let pending :=
       q +:+ "@type" +:+ q +:+ ":" +:+ q +:+ "messageSendingStatePending" +:+ q in
     let succeeded :=
       q +:+ "@type" +:+ q +:+ ":" +:+ q +:+ "updateMessageSendSucceeded" +:+ q in
     let id_text (id : Z) :=
       q +:+ "id" +:+ q +:+ ":" +:+ NilZero.string_of_int (Z.to_int id) in
     exists patched between,
       (Send client req env).1 = (Some patched, None)
       /\ resp_Type patched = resp_Type response
       /\ resp_Extra patched = resp_Extra response
       /\ first_replaced (resp_Data response) pending succeeded between
       /\ first_replaced between (id_text (Id m)) (id_text (Id (Message_ m2)))
            (resp_Data patched))
  /\ ((on_successCatcher env = None
       \/ exists t modResponse,
            on_successCatcher env = Some (t, modResponse)
            /\ (1 * Second < t
                \/ exists message,
                     UnmarshalUpdateMessageSendSucceeded (resp_Data modResponse)
                     = Err message)) ->
      (Send client req env).1 = (Some response, None))
  /\ (forall pendingUpdateType dispatching event typ ch,
        UnmarshalType (resp_Data event) = Ok typ ->
        successMsgStore dispatching !! Id m = Some ch ->
        successMsgStore (final (processResponse pendingUpdateType dispatching event))
          !! Id m
        = Some (match typ with
                | AsUpdateMessageSendSucceeded u =>
                    if negb (DisablePatch dispatching)
                       && bool_decide (OldMessageId u = Id m)
                    then ch ++ [event] else ch
                | OtherClass _ _ => ch
                end)).
Proof.
  intros Harr Hlt Ha Hd Ht.
  pose proof (select_receives _ _ (tie_catcher env) _ _ Harr Hlt) as Hsel.
  rewrite (Send_subflow _ _ _ _ _ Hsel Ha Hd Ht). simpl fst.
  split; [|split].
  3: { intros pendingUpdateType dispatching event typ ch Hde Hin.
       apply processResponse_successMsgStore; assumption. }
  - intros t modResponse m2 Harr2 Hlt2 Hd2 q pending succeeded id_text.
    rewrite (select_receives _ _ (tie_successCatcher env) _ _ Harr2 Hlt2), Hd2.
    eexists. exists (Replace (resp_Data response) PendingMarker SucceededMarker 1).
    split; [reflexivity|]. simpl.
    split; [reflexivity|]. split; [reflexivity|]. split.
    + exact (Replace_first (resp_Data response) PendingMarker SucceededMarker).
    + exact (Replace_first
               (Replace (resp_Data response) PendingMarker SucceededMarker 1)
               (IdField (Id m)) (IdField (Id (Message_ m2)))).
  - intros [Hnone|(t & modResponse & Harr2 & [Hlate|(message & Hd2)])].
    + rewrite (select_times_out _ _ (tie_successCatcher env)); [reflexivity|].
      left. exact Hnone.
    + rewrite (select_times_out _ _ (tie_successCatcher env)); [reflexivity|].
      right. exists t, modResponse. split; [exact Harr2|].
      change (1 * Second) with 1000000000 in *. lia.
    + destruct (select_with_timeout (on_successCatcher env) (1 * Second)
                  (tie_successCatcher env)) as [modResponse'|] eqn:Hsel2; [|reflexivity].
      assert (modResponse' = modResponse) as ->.
      { unfold select_with_timeout in Hsel2. rewrite Harr2 in Hsel2.
        repeat destruct (_ <? _) in Hsel2; try destruct (tie_successCatcher env);
          congruence. }
      rewrite Hd2. reflexivity.
Qed.

(** The example of the specification, with the payloads written out ([q]
    is the double quote): the answer to a send-text request holds the
    pending marker and temporary id 100; the succeeded event with final id
    500 comes after 30 milliseconds, and the payload that comes back holds
    the succeeded marker and id 500 and is otherwise the same text.  In a
    second call no event comes, and the answer is returned as it is. *)
Lemma Send_patches_marker_and_id_witness :
  let q := String "034"%char EmptyString in
  let answer_text :=
    "{" +:+ q +:+ "@type" +:+ q +:+ ":" +:+ q +:+ "message" +:+ q
    +:+ "," +:+ q +:+ "id" +:+ q +:+ ":100"
    +:+ "," +:+ q +:+ "sending_state" +:+ q +:+ ":{"
    +:+ q +:+ "@type" +:+ q +:+ ":" +:+ q +:+ "messageSendingStatePending" +:+ q
    +:+ "}," +:+ q +:+ "content" +:+ q +:+ ":{"
    +:+ q +:+ "@type" +:+ q +:+ ":" +:+ q +:+ "messageText" +:+ q +:+ "}}" in
  let patched_text :=
    "{" +:+ q +:+ "@type" +:+ q +:+ ":" +:+ q +:+ "message" +:+ q
    +:+ "," +:+ q +:+ "id" +:+ q +:+ ":500"
    +:+ "," +:+ q +:+ "sending_state" +:+ q +:+ ":{"
    +:+ q +:+ "@type" +:+ q +:+ ":" +:+ q +:+ "updateMessageSendSucceeded" +:+ q
    +:+ "}," +:+ q +:+ "content" +:+ q +:+ ":{"
    +:+ q +:+ "@type" +:+ q +:+ ":" +:+ q +:+ "messageText" +:+ q +:+ "}}" in
  let event_text :=
    "{" +:+ q +:+ "@type" +:+ q +:+ ":" +:+ q +:+ "updateMessageSendSucceeded" +:+ q
    +:+ "," +:+ q +:+ "message" +:+ q +:+ ":{"
    +:+ q +:+ "@type" +:+ q +:+ ":" +:+ q +:+ "message" +:+ q
    +:+ "," +:+ q +:+ "id" +:+ q +:+ ":500}"
    +:+ "," +:+ q +:+ "old_message_id" +:+ q +:+ ":100}" in
  let answer := {| resp_Type := "message"; resp_Extra := "call-1";
                   resp_Data := answer_text |} in
  let event := {| resp_Type := "updateMessageSendSucceeded";
                  resp_Extra := EmptyString; resp_Data := event_text |} in
  let env offered := {| generated_extra := "call-1";
                        on_catcher := Some (2 * Second, answer);
                        on_successCatcher := offered;
                        tie_catcher := true; tie_successCatcher := true |} in
  (exists patched between,
     (Send (codec := Sample.codec) Sample.client Sample.sendMessage
        (env (Some (30 * Millisecond, event)))).1
     = (Some patched, None)
     /\ resp_Type patched = "message"
     /\ resp_Extra patched = "call-1"
     /\ first_replaced answer_text
          (q +:+ "@type" +:+ q +:+ ":" +:+ q +:+ "messageSendingStatePending" +:+ q)
          (q +:+ "@type" +:+ q +:+ ":" +:+ q +:+ "updateMessageSendSucceeded" +:+ q)
          between
     /\ first_replaced between
          (q +:+ "id" +:+ q +:+ ":100") (q +:+ "id" +:+ q +:+ ":500")
          (resp_Data patched)
     /\ resp_Data patched = patched_text)
  /\ (Send (codec := Sample.codec) Sample.client Sample.sendMessage (env None)).1
     = (Some answer, None).
Proof.
  intros q answer_text patched_text event_text answer event env.
  assert (Ha : patch_applies Sample.client Sample.sendMessage answer)
    by (repeat split; discriminate).
  assert (Ht : text_or_dice Sample.message100) by (left; reflexivity).
  split.
  - destruct (Send_patches_marker_and_id (codec := Sample.codec)
                Sample.client Sample.sendMessage (env (Some (30 * Millisecond, event)))
                (2 * Second) answer Sample.message100 eq_refl eq_refl Ha eq_refl Ht)
      as (Hin & _ & _).
    destruct (Hin (30 * Millisecond) event Sample.succeeded100 eq_refl eq_refl eq_refl)
      as (patched & between & Hsend & Htype & Hextra & Hfirst & Hsecond).
    exists patched, between.
    split; [exact Hsend|]. split; [exact Htype|]. split; [exact Hextra|].
    split; [exact Hfirst|]. split; [exact Hsecond|].
    vm_compute in Hsend. injection Hsend as <-. reflexivity.
  - destruct (Send_patches_marker_and_id (codec := Sample.codec)
                Sample.client Sample.sendMessage (env None)
                (2 * Second) answer Sample.message100 eq_refl eq_refl Ha eq_refl Ht)
      as (_ & Hout & _).
    apply Hout. left. reflexivity.
Defined.

(** The same call by evaluation: the payload that comes back, written out
    ([q] is the double quote). *)
Example Send_patch_example :
  let q := String "034"%char EmptyString in
  let answer :=
    {| resp_Type := "message"; resp_Extra := "call-1";
       resp_Data :=
         "{" +:+ q +:+ "@type" +:+ q +:+ ":" +:+ q +:+ "message" +:+ q
         +:+ "," +:+ q +:+ "id" +:+ q +:+ ":100"
         +:+ "," +:+ q +:+ "sending_state" +:+ q +:+ ":{"
         +:+ q +:+ "@type" +:+ q +:+ ":" +:+ q +:+ "messageSendingStatePending" +:+ q
         +:+ "}," +:+ q +:+ "content" +:+ q +:+ ":{"
         +:+ q +:+ "@type" +:+ q +:+ ":" +:+ q +:+ "messageText" +:+ q +:+ "}}" |} in
  let event := Sample.response "updateMessageSendSucceeded" EmptyString
                 Sample.send_succeeded in
  let env := {| generated_extra := "call-1";
                on_catcher := Some (2 * Second, answer);
                on_successCatcher := Some (30 * Millisecond, event);
                tie_catcher := true; tie_successCatcher := true |} in
  (Send (codec := Sample.codec) Sample.client Sample.sendMessage env).1
  = (Some {| resp_Type := "message"; resp_Extra := "call-1";
             resp_Data :=
               "{" +:+ q +:+ "@type" +:+ q +:+ ":" +:+ q +:+ "message" +:+ q
               +:+ "," +:+ q +:+ "id" +:+ q +:+ ":500"
               +:+ "," +:+ q +:+ "sending_state" +:+ q +:+ ":{"
               +:+ q +:+ "@type" +:+ q +:+ ":" +:+ q
               +:+ "updateMessageSendSucceeded" +:+ q
               +:+ "}," +:+ q +:+ "content" +:+ q +:+ ":{"
               +:+ q +:+ "@type" +:+ q +:+ ":" +:+ q +:+ "messageText" +:+ q
               +:+ "}}" |},
     None).
Proof. vm_compute. reflexivity. Qed.

(** C3 as stated fails: the answer to a sendMessage request arrives in
    time but is cut off, so that it does not decode as a message; [Send]
    returns the error of the decoder and no response, although nothing
    timed out. *)
Lemma Send_fails_on_undecodable_message : ~ Send_fails_only_on_timeout.
Proof.
  intros H.
  pose (answer := Sample.response "message" "call-1" Sample.truncated).
  pose (env := {| generated_extra := "call-1";
                  on_catcher := Some (2 * Second, answer);
                  on_successCatcher := None;
                  tie_catcher := true; tie_successCatcher := true |}).
  specialize (H Sample.codec Sample.client Sample.sendMessage env).
  change (exists response,
            (@None Response, Some (decoder_error "unexpected end of JSON input"))
            = (Some response, @None error)) in H.
  destruct H as (response & H). discriminate.
Qed.

(** C3, amended: [Send] returns an error in two cases only.  When the wait
    for the response times out it returns the error of the timeout and no
    response.  When the response arrives, the patch applies to it (patch
    enabled, response not an error, request a sendMessage) and the
    response does not decode as a message, it returns the error of the
    decoder and no response.  In every other case, also when the succeeded
    event of the patch sub-flow does not decode, it returns a response and
    no error. *)
Theorem Send_error_cases {codec : Codec}
    (client : Client) (req : Request) (env : Surroundings) :
  let outcome := (Send client req env).1 in
  let waited :=
    select_with_timeout (on_catcher env) (catchTimeout client) (tie_catcher env) in
  (waited = TimedOut ->
   outcome = (None, Some (errors_New "response catching timeout")))
  /\ (forall response message,
        waited = Received response ->
        patch_applies client req response ->
        UnmarshalMessage (resp_Data response) = Err message ->
        outcome = (None, Some (decoder_error message)))
  /\ (forall response,
        waited = Received response ->
        ~ (patch_applies client req response
           /\ exists message, UnmarshalMessage (resp_Data response) = Err message) ->
        exists returned, outcome = (Some returned, None))
  /\ (forall e,
        outcome.2 = Some e ->
        (waited = TimedOut /\ e = errors_New "response catching timeout")
        \/ (exists response message,
              waited = Received response
              /\ patch_applies client req response
              /\ UnmarshalMessage (resp_Data response) = Err message
              /\ e = decoder_error message)).
Proof.
  intros outcome waited. subst outcome.
  assert (Hok : forall response,
             waited = Received response ->
             ~ (patch_applies client req response
                /\ exists message, UnmarshalMessage (resp_Data response) = Err message) ->
             exists returned, (Send client req env).1 = (Some returned, None)).
  { intros response Hsel Hn.
    destruct (patch_applies_dec client req response) as [Ha|Hna].
    - destruct (UnmarshalMessage (resp_Data response)) as [m|message] eqn:Hd.
      + destruct (text_or_dice_dec m) as [Ht|Ht].
        * rewrite (Send_subflow _ _ _ _ _ Hsel Ha Hd Ht). eexists. reflexivity.
        * rewrite (Send_other_content _ _ _ _ _ Hsel Ha Hd Ht). eexists. reflexivity.
      + exfalso. apply Hn. split; [exact Ha|]. exists message. reflexivity.
    - rewrite (Send_unpatched _ _ _ _ Hsel Hna). eexists. reflexivity. }
  split; [|split; [|split]].
  - intros Hsel. apply Send_TimedOut, Hsel.
  - intros response message Hsel Ha Hd.
    rewrite (Send_undecodable _ _ _ _ _ Hsel Ha Hd). reflexivity.
  - exact Hok.
  - intros e He. destruct waited as [response|] eqn:Hsel.
    + right. destruct (patch_applies_dec client req response) as [Ha|Hna].
      * destruct (UnmarshalMessage (resp_Data response)) as [m|message] eqn:Hd.
        -- destruct (Hok response eq_refl) as (returned & Hr).
           { intros [_ (message & Hm)]. congruence. }
           rewrite Hr in He. discriminate.
        -- exists response, message.
           split; [reflexivity|]. split; [exact Ha|]. split; [exact Hd|].
           rewrite (Send_undecodable _ _ _ _ _ Hsel Ha Hd) in He.
           simpl in He. congruence.
      * destruct (Hok response eq_refl) as (returned & Hr).
        { intros [Ha _]. contradiction. }
        rewrite Hr in He. discriminate.
    + left. split; [reflexivity|].
      rewrite (Send_TimedOut _ _ _ Hsel) in He. simpl in He. congruence.
Qed.

(** The three cases: nothing comes; the cut-off answer comes; the whole
    answer comes. *)
Lemma Send_error_cases_witness :
  let env answer := {| generated_extra := "call-1"; on_catcher := answer;
                       on_successCatcher := None;
                       tie_catcher := true; tie_successCatcher := true |} in
  let cut := Sample.response "message" "call-1" Sample.truncated in
  let whole := Sample.response "message" "call-1" Sample.pending_message in
  (Send (codec := Sample.codec) Sample.client Sample.sendMessage (env None)).1
  = (None, Some (errors_New "response catching timeout"))
  /\ (Send (codec := Sample.codec) Sample.client Sample.sendMessage
        (env (Some (2 * Second, cut)))).1
     = (None, Some (decoder_error "unexpected end of JSON input"))
  /\ exists returned,
       (Send (codec := Sample.codec) Sample.client Sample.sendMessage
          (env (Some (2 * Second, whole)))).1
       = (Some returned, None).
Proof.
  intros env cut whole.
  destruct (Send_error_cases (codec := Sample.codec) Sample.client Sample.sendMessage
              (env None)) as (H1 & _).
  destruct (Send_error_cases (codec := Sample.codec) Sample.client Sample.sendMessage
              (env (Some (2 * Second, cut)))) as (_ & H2 & _).
  destruct (Send_error_cases (codec := Sample.codec) Sample.client Sample.sendMessage
              (env (Some (2 * Second, whole)))) as (_ & _ & H3 & _).
  split; [exact (H1 eq_refl)|]. split.
  - apply (H2 cut "unexpected end of JSON input" eq_refl); [|reflexivity].
    repeat split. discriminate.
  - apply (H3 whole eq_refl). intros [_ (message & Hm)]. discriminate.
Defined.

(** C6 as stated fails on the same call: the four conditions do not hold,
    since the answer does not decode, and yet the response does not come
    back. *)
Lemma undecodable_message_is_not_returned : ~ patch_runs_exactly_under_its_conditions.
Proof.
  intros H.
  pose (answer := Sample.response "message" "call-1" Sample.truncated).
  pose (env := {| generated_extra := "call-1";
                  on_catcher := Some (2 * Second, answer);
                  on_successCatcher := None;
                  tie_catcher := true; tie_successCatcher := true |}).
  destruct (H Sample.codec Sample.client Sample.sendMessage env answer eq_refl)
    as [_ Hret].
  assert (Hn : ~ patch_conditions (codec := Sample.codec) Sample.client
                   Sample.sendMessage answer).
  { intros (_ & m & Hm & _). discriminate. }
  specialize (Hret Hn). discriminate.
Qed.

(** C6, amended: when the response arrives, the patch sub-flow (an entry
    in the secondary correlation store and a wait of at most one second
    for the succeeded event, the entry being removed afterwards) runs
    exactly when the patch is enabled, the response is not an error, the
    request is a sendMessage and the response decodes as a message whose
    content is text or dice.  In the other cases [Send] returns the
    response as it came and no error, unless the first three conditions
    hold and the response does not decode as a message: then it returns
    the error of the decoder and no response, and the sub-flow does not
    run. *)
Theorem patch_subflow_conditions {codec : Codec}
    (client : Client) (req : Request) (env : Surroundings) (response : Response) :
  select_with_timeout (on_catcher env) (catchTimeout client) (tie_catcher env)
  = Received response ->
  (patch_subflow_ran (Send client req env).2 <-> patch_conditions client req response)
  /\ (forall m,
        patch_applies client req response ->
        UnmarshalMessage (resp_Data response) = Ok m ->
        text_or_dice m ->
        (Send client req env).2
        = [catchersStore_Store (generated_extra env);
           jsonClient_Send (Request_set_Extra req (generated_extra env));
           wait_catcher (catchTimeout client);
           successMsgStore_Store (Id m);
           wait_successCatcher (1 * Second);
           successMsgStore_Delete (Id m);
           catchersStore_Delete (generated_extra env)])
  /\ (~ patch_conditions client req response ->
      ~ (patch_applies client req response
         /\ exists message, UnmarshalMessage (resp_Data response) = Err message) ->
      (Send client req env).1 = (Some response, None))
  /\ (forall message,
        patch_applies client req response ->
        UnmarshalMessage (resp_Data response) = Err message ->
        (Send client req env).1 = (None, Some (decoder_error message))).
Proof.
  intros Hsel. unfold patch_conditions.
  destruct (patch_applies_dec client req response) as [Ha|Hna].
  - destruct (UnmarshalMessage (resp_Data response)) as [m|message] eqn:Hd.
    + destruct (text_or_dice_dec m) as [Ht|Ht].
      * rewrite (Send_subflow _ _ _ _ _ Hsel Ha Hd Ht). simpl.
        split; [|split; [|split]].
        -- split; [|intros _; apply subflow_in_long_trace].
           intros _. split; [exact Ha|]. exists m. split; [reflexivity|exact Ht].
        -- intros m' _ Hm' _. injection Hm' as <-. reflexivity.
        -- intros Hn. exfalso. apply Hn. split; [exact Ha|].
           exists m. split; [reflexivity|exact Ht].
        -- intros message _ Hm. discriminate.
      * rewrite (Send_other_content _ _ _ _ _ Hsel Ha Hd Ht). simpl.
        split; [|split; [|split]].
        -- split; [intros H; exfalso; exact (no_subflow_in_short_trace _ _ _ _ H)|].
           intros (_ & m' & Hm' & Ht'). injection Hm' as <-. contradiction.
        -- intros m' _ Hm' Ht'. injection Hm' as <-. contradiction.
        -- reflexivity.
        -- intros message _ Hm. discriminate.
    + rewrite (Send_undecodable _ _ _ _ _ Hsel Ha Hd). simpl.
      split; [|split; [|split]].
      * split; [intros H; exfalso; exact (no_subflow_in_short_trace _ _ _ _ H)|].
        intros (_ & m' & Hm' & _). discriminate.
      * intros m' _ Hm' _. discriminate.
      * intros _ Hn. exfalso. apply Hn. split; [exact Ha|]. exists message. reflexivity.
      * intros message' _ Hm. injection Hm as <-. reflexivity.
  - rewrite (Send_unpatched _ _ _ _ Hsel Hna). simpl.
    split; [|split; [|split]].
    + split; [intros H; exfalso; exact (no_subflow_in_short_trace _ _ _ _ H)|].
      intros (Ha & _). contradiction.
    + intros m Ha. contradiction.
    + reflexivity.
    + intros message Ha. contradiction.
Qed.

(** The whole answer to the send-text request arrives after two seconds:
    the four conditions hold and the sub-flow runs. *)
Lemma patch_subflow_conditions_witness :
  let answer := Sample.response "message" "call-1" Sample.pending_message in
  let env := {| generated_extra := "call-1";
                on_catcher := Some (2 * Second, answer);
                on_successCatcher := None;
                tie_catcher := true; tie_successCatcher := true |} in
  patch_subflow_ran
    (Send (codec := Sample.codec) Sample.client Sample.sendMessage env).2
  /\ (Send (codec := Sample.codec) Sample.client Sample.sendMessage env).2
     = [catchersStore_Store "call-1";
        jsonClient_Send (Request_set_Extra Sample.sendMessage "call-1");
        wait_catcher (60 * Second);
        successMsgStore_Store 100;
        wait_successCatcher (1 * Second);
        successMsgStore_Delete 100;
        catchersStore_Delete "call-1"].
Proof.
  intros answer env.
  destruct (patch_subflow_conditions (codec := Sample.codec) Sample.client
              Sample.sendMessage env answer eq_refl) as (Hiff & Htrace & _).
  assert (Ha : patch_applies Sample.client Sample.sendMessage answer)
    by (repeat split; discriminate).
  split.
  - apply Hiff. split; [exact Ha|].
    exists Sample.message100. split; [reflexivity|left; reflexivity].
  - apply (Htrace Sample.message100 Ha eq_refl). left. reflexivity.
Defined.

(* ===================================================================== *)
(** ** Further facts about the command helpers                            *)
(* ===================================================================== *)

Section CommandFacts.
Import GoStrings.

Lemma append_assoc (a b c : string) : (a +:+ b) +:+ c = a +:+ (b +:+ c).
Proof.
  induction a as [|x a IH]; [reflexivity|].
  rewrite !append_cons, IH. reflexivity.
Qed.

Lemma take_drop (n : nat) (s : string) : take n s +:+ drop n s = s.
Proof.
  revert s. induction n as [|n IH]; intros s; [reflexivity|].
  destruct s as [|a s]; [reflexivity|].
  simpl. rewrite append_cons, IH. reflexivity.
Qed.

Lemma length_take_le (n : nat) (s : string) : (String.length (take n s) <= n)%nat.
Proof.
  revert s. induction n as [|n IH]; intros s; [destruct s; simpl; lia|].
  destruct s as [|a s]; simpl; [lia|]. specialize (IH s). lia.
Qed.

Lemma length_take (n : nat) (s : string) :
  (n <= String.length s)%nat -> String.length (take n s) = n.
Proof.
  revert s. induction n as [|n IH]; intros s H; [destruct s; reflexivity|].
  destruct s as [|a s]; simpl in *; [lia|]. rewrite IH; [reflexivity|lia].
Qed.

Lemma take_append (n : nat) (a b : string) :
  (String.length a <= n)%nat ->
  take n (a +:+ b) = a +:+ take (n - String.length a) b.
Proof.
  revert n. induction a as [|x a IH]; intros n H.
  - rewrite !append_nil. simpl. rewrite Nat.sub_0_r. reflexivity.
  - destruct n as [|n]; simpl in H; [lia|].
    rewrite !append_cons. simpl. rewrite IH by lia. reflexivity.
Qed.

Lemma Index_le_len (s sub : string) : Index s sub <= len s.
Proof.
  unfold len. induction s as [|a s IH]; simpl.
  - destruct (HasPrefix _ _); lia.
  - destruct (HasPrefix _ _); [lia|].
    destruct (Z.ltb_spec (Index s sub) 0); lia.
Qed.

Lemma Index_present (s sub pre post : string) :
  occurs_at sub s pre post -> 0 <= Index s sub.
Proof.
  intros Hocc. destruct (Index_range s sub) as [Hm|Hnn]; [|exact Hnn].
  exfalso. apply (Index_absent s sub) with (pre := pre) (post := post); [lia|exact Hocc].
Qed.

(** Where a non-empty [sub] is first found in a prefix of [s]. *)
Lemma Index_take (n : nat) (s sub : string) :
  sub <> EmptyString ->
  0 <= Index (take n s) sub
  <-> 0 <= Index s sub /\ Index s sub + len sub <= Z.of_nat n.
Proof.
  intros Hsub. unfold len. split.
  - intros Hnn. destruct (Index_found _ _ Hnn) as [Hsplit _].
    set (pre := slice_to (take n s) (Index (take n s) sub)) in *.
    set (post := slice_from (take n s) (Index (take n s) sub + len sub)) in *.
    assert (Hocc : occurs_at sub s pre (post +:+ drop n s)).
    { unfold occurs_at. rewrite <- (take_drop n s) at 1.
      rewrite Hsplit at 1. rewrite !append_assoc. reflexivity. }
    split; [exact (Index_present _ _ _ _ Hocc)|].
    destruct (Index_found s sub (Index_present _ _ _ _ Hocc)) as [_ Hmin].
    specialize (Hmin _ _ Hocc).
    pose proof (f_equal String.length Hsplit) as Hl.
    rewrite !length_append in Hl. pose proof (length_take_le n s). lia.
  - intros [Hnn Hle]. destruct (Index_found s sub Hnn) as [Hsplit _].
    unfold slice_to, slice_from, len in Hsplit.
    set (i := Z.to_nat (Index s sub)) in *.
    assert (Hi : String.length (take i s) = i).
    { apply length_take. pose proof (Index_le_len s sub). unfold len in *. lia. }
    apply (Index_present _ _ (take i s)
             (take (n - i - String.length sub)
                (drop (Z.to_nat (Index s sub + Z.of_nat (String.length sub))) s))).
    unfold occurs_at. rewrite Hsplit at 1.
    rewrite take_append by lia. rewrite Hi.
    rewrite take_append by lia. reflexivity.
Qed.

Lemma Index_take_absent (n : nat) (s sub : string) :
  sub <> EmptyString ->
  (Index s sub = -1 \/ Z.of_nat n < Index s sub + len sub) ->
  Index (take n s) sub = -1.
Proof.
  intros Hsub H. destruct (Index_range (take n s) sub) as [Hm|Hnn]; [exact Hm|].
  apply (Index_take n s sub Hsub) in Hnn. lia.
Qed.

Lemma CheckCommandA_described (TextEntity : Type) (text : string)
    (entities : list TextEntity) :
  ExtraA.CheckCommand TextEntity text entities = CheckCommand_described text.
Proof.
  unfold ExtraA.CheckCommand, CheckCommand_described.
  rewrite IsCommandA_prefix. cbv zeta.
  destruct (HasPrefix text "/"); [|reflexivity].
  pose proof (Index_range text "@") as Hat. pose proof (Index_range text " ") as Hsp.
  destruct (Z.eqb_spec (Index text "@") (-1)), (Z.eqb_spec (Index text " ") (-1)),
    (Z.leb_spec 0 (Index text "@")), (Z.leb_spec 0 (Index text " "));
    try lia; reflexivity.
Qed.

Lemma CheckCommandB_described (TextEntity : Type) (text : string)
    (entities : list TextEntity) :
  ExtraB.CheckCommand TextEntity text entities = CheckCommand_described text.
Proof.
  unfold ExtraB.CheckCommand, CheckCommand_described.
  rewrite IsCommandB_prefix. cbv zeta.
  destruct (HasPrefix text "/") eqn:Hp; [|reflexivity].
  destruct text as [|a s]; [discriminate|].
  change (Ascii.eqb "/" a && true = true) in Hp.
  apply andb_true_iff in Hp as [Ha _]. apply Ascii.eqb_eq in Ha. subst a.
  pose proof (Index_in_command s "@" eq_refl) as Hat.
  pose proof (Index_in_command s " " eq_refl) as Hsp.
  cbv zeta in Hat, Hsp.
  set (ia := Index (String "/" s) "@") in *.
  set (isp := Index (String "/" s) " ") in *.
  set (ta := slice_to (String "/" s) ia) in *.
  set (tsp := slice_to (String "/" s) isp) in *.
  clearbody ta tsp. clearbody ia isp.
  destruct (Z.eqb_spec ia (-1)), (Z.eqb_spec isp (-1)),
    (Z.leb_spec 0 ia), (Z.leb_spec 0 isp); try lia;
    destruct Hat as [Hat|[Hat1 Hat2]], Hsp as [Hsp|[Hsp1 Hsp2]]; try lia;
    simpl negb; cbv iota; rewrite ?Hat2, ?Hsp2; reflexivity.
Qed.

Lemma one_char_not_empty (c : ascii) : String c EmptyString <> EmptyString.
Proof. discriminate. Qed.

(** The described result is a prefix of the text. *)
Lemma described_prefix (text : string) :
  exists rest, text = CheckCommand_described text +:+ rest.
Proof.
  unfold CheckCommand_described, slice_to.
  destruct (HasPrefix text "/"); [|exists text; reflexivity].
  destruct (0 <=? Index text "@");
    [eexists; symmetry; apply take_drop|].
  destruct (0 <=? Index text " ");
    [eexists; symmetry; apply take_drop|].
  exists EmptyString. clear. induction text as [|a s IH]; [reflexivity|].
  rewrite append_cons, <- IH. reflexivity.
Qed.

(** The described result holds no '@'. *)
Lemma described_without_at (text : string) :
  Index (CheckCommand_described text) "@" = -1.
Proof.
  unfold CheckCommand_described, slice_to.
  destruct (HasPrefix text "/"); [|reflexivity].
  destruct (Z.leb_spec 0 (Index text "@")) as [Hat|Hat].
  - apply Index_take_absent; [apply one_char_not_empty|]. right. unfold len. simpl. lia.
  - assert (Hm : Index text "@" = -1) by (pose proof (Index_range text "@"); lia).
    destruct (0 <=? Index text " "); [|exact Hm].
    apply Index_take_absent; [apply one_char_not_empty|]. left. exact Hm.
Qed.

(** The described result holds a space exactly when the first space of a
    command comes before its first '@'. *)
Lemma described_space (text : string) :
  Index (CheckCommand_described text) " " <> -1
  <-> HasPrefix text "/" = true
      /\ 0 <= Index text " " /\ Index text " " < Index text "@".
Proof.
  unfold CheckCommand_described, slice_to.
  destruct (HasPrefix text "/").
  2: { split; [intros H; exfalso; apply H; reflexivity|intros [H _]; discriminate]. }
  pose proof (Index_range text " ") as Hsp.
  destruct (Z.leb_spec 0 (Index text "@")) as [Hat|Hat].
  - pose proof (Index_take (Z.to_nat (Index text "@")) text " " (one_char_not_empty _))
      as Ht.
    pose proof (Index_range (take (Z.to_nat (Index text "@")) text) " ") as Hr.
    unfold len in Ht. simpl String.length in Ht.
    split.
    + intros H. split; [reflexivity|]. lia.
    + intros (_ & H1 & H2). lia.
  - destruct (Z.leb_spec 0 (Index text " ")) as [Hs|Hs].
    + split; [|lia]. intros H. exfalso. apply H.
      apply Index_take_absent; [apply one_char_not_empty|].
      right. unfold len. simpl. lia.
    + split; [|lia]. intros H. lia.
Qed.

Lemma described_is_command (text : string) :
  HasPrefix (CheckCommand_described text) "/" = HasPrefix text "/".
Proof.
  unfold CheckCommand_described.
  destruct (HasPrefix text "/") eqn:Hp; [|reflexivity].
  destruct text as [|a s]; [discriminate|].
  change (Ascii.eqb "/" a && true = true) in Hp.
  apply andb_true_iff in Hp as [Ha _]. apply Ascii.eqb_eq in Ha. subst a.
  pose proof (Index_in_command s "@" eq_refl) as Hat.
  pose proof (Index_in_command s " " eq_refl) as Hsp.
  cbv zeta in Hat, Hsp. unfold slice_to in *.
  assert (Hpos : forall i, 1 <= i ->
            HasPrefix (take (Z.to_nat i) (String "/" s)) "/" = true).
  { intros i Hi. replace (Z.to_nat i) with (S (Z.to_nat (i - 1))) by lia. reflexivity. }
  destruct (Z.leb_spec 0 (Index (String "/" s) "@")); [apply Hpos; lia|].
  destruct (Z.leb_spec 0 (Index (String "/" s) " ")); [apply Hpos; lia|].
  reflexivity.
Qed.

End CommandFacts.

(** X1: in both versions the result of [CheckCommand] is a prefix of the
    text, holds no '@', and is a command exactly when the text is one. *)
Theorem CheckCommand_is_a_prefix_without_at (TextEntity : Type) (text : string)
    (entities : list TextEntity) :
  let a := ExtraA.CheckCommand TextEntity text entities in
  let b := ExtraB.CheckCommand TextEntity text entities in
  (exists rest, text = a +:+ rest) /\ (exists rest, text = b +:+ rest)
  /\ Index a "@" = -1 /\ Index b "@" = -1
  /\ ExtraA.IsCommand a = ExtraA.IsCommand text
  /\ ExtraB.IsCommand b = ExtraB.IsCommand text.
Proof.
  cbv zeta. rewrite CheckCommandA_described, CheckCommandB_described.
  rewrite !IsCommandA_prefix, !IsCommandB_prefix.
  repeat split; auto using described_prefix, described_without_at, described_is_command.
Qed.

(** X2: in both versions the result of [CheckCommand] holds a space
    exactly when the text is a command whose first space comes before its
    first '@'. *)
Theorem CheckCommand_space_before_at (TextEntity : Type) (text : string)
    (entities : list TextEntity) :
  (Index (ExtraA.CheckCommand TextEntity text entities) " " <> -1
   <-> ExtraA.IsCommand text = true
       /\ 0 <= Index text " " /\ Index text " " < Index text "@")
  /\ (Index (ExtraB.CheckCommand TextEntity text entities) " " <> -1
      <-> ExtraB.IsCommand text = true
          /\ 0 <= Index text " " /\ Index text " " < Index text "@").
Proof.
  rewrite CheckCommandA_described, CheckCommandB_described.
  rewrite IsCommandA_prefix, IsCommandB_prefix.
  split; apply described_space.
Qed.

(** X3: for a command with a space, the text is the part before the first
    space, the space, and the result of [CommandArgument]; without a space
    the argument is empty.  When the command holds no '@', the part before
    the first space is the result of [CheckCommand], so that name and
    argument give the text back. *)
Theorem command_splits_into_name_and_argument (TextEntity : Type) (text : string)
    (entities : list TextEntity) :
  ExtraA.IsCommand text = true ->
  (Index text " " <> -1 ->
   text = slice_to text (Index text " ") +:+ " " +:+ ExtraA.CommandArgument text
   /\ ExtraB.CommandArgument text = ExtraA.CommandArgument text
   /\ Index (slice_to text (Index text " ")) " " = -1
   /\ (Index text "@" = -1 ->
       text = ExtraA.CheckCommand TextEntity text entities
                +:+ " " +:+ ExtraA.CommandArgument text
       /\ text = ExtraB.CheckCommand TextEntity text entities
                  +:+ " " +:+ ExtraB.CommandArgument text))
  /\ (Index text " " = -1 ->
      ExtraA.CommandArgument text = EmptyString
      /\ ExtraB.CommandArgument text = EmptyString
      /\ (Index text "@" = -1 ->
          ExtraA.CheckCommand TextEntity text entities = text
          /\ ExtraB.CheckCommand TextEntity text entities = text)).
Proof.
  intros Hc.
  assert (Hb : ExtraB.IsCommand text = true)
    by (rewrite IsCommandB_prefix, <- IsCommandA_prefix; exact Hc).
  assert (Hp : HasPrefix text "/" = true) by (rewrite <- IsCommandA_prefix; exact Hc).
  rewrite CheckCommandA_described, CheckCommandB_described.
  unfold ExtraA.CommandArgument, ExtraB.CommandArgument, CheckCommand_described.
  rewrite Hc, Hb, Hp. cbv zeta.
  pose proof (Index_range text " ") as Hsp.
  split.
  - intros Hne.
    assert (Hnn : 0 <= Index text " ") by lia.
    destruct (Index_found text " " Hnn) as [Hsplit _].
    change (len " ") with 1 in Hsplit.
    replace (Index text " " =? -1) with false by (symmetry; apply Z.eqb_neq; exact Hne).
    simpl negb. cbv iota.
    split; [exact Hsplit|]. split; [reflexivity|]. split.
    + apply Index_take_absent; [apply one_char_not_empty|].
      right. unfold len. simpl. lia.
    + intros Hat. rewrite Hat. simpl (0 <=? -1). cbv iota.
      replace (0 <=? Index text " ") with true by (symmetry; apply Z.leb_le; exact Hnn).
      split; exact Hsplit.
  - intros Hm. rewrite Hm. simpl. split; [reflexivity|]. split; [reflexivity|].
    intros Hat. rewrite Hat. simpl. split; reflexivity.
Qed.

(** The command "/say hello world". *)
Lemma command_splits_into_name_and_argument_witness :
  ExtraA.CommandArgument "/say hello world" = "hello world"
  /\ "/say hello world"
     = ExtraB.CheckCommand unit "/say hello world" [] +:+ " "
         +:+ ExtraB.CommandArgument "/say hello world".
Proof.
  destruct (command_splits_into_name_and_argument unit "/say hello world" [] eq_refl)
    as [Hsplit _].
  destruct (Hsplit ltac:(discriminate)) as (H1 & H2 & _ & H3).
  split.
  - apply (f_equal (fun s => slice_from s 5)) in H1. symmetry. exact H1.
  - exact (proj2 (H3 eq_refl)).
Defined.

(* ===================================================================== *)
(** ** Further facts about the dispatcher                                 *)
(* ===================================================================== *)

Section MoreDispatcherFacts.
Context {codec : Codec}.
Variable pendingUpdateType : list TypeObj.

Lemma listener_body_None (typ : TypeObj) (l : Listener) (needGc : bool) :
  listener_body typ l needGc = None <-> nil_filtered l.
Proof.
  unfold listener_body, nil_filtered, IsActive.
  destruct (isActive l); simpl.
  2: { split; [discriminate|]. intros [H _]. discriminate H. }
  destruct (Updates l) as [ch|]; simpl.
  2: { split; [|intros (_ & H & _); contradiction].
       destruct (bool_decide _); discriminate. }
  destruct (Filter l) as [X|].
  - split; [|intros (_ & _ & H); discriminate H].
    destruct (String.eqb _ _); [destruct (String.eqb _ _); discriminate|].
    destruct (bool_decide _); discriminate.
  - split; [|reflexivity]. intros _. repeat split. discriminate.
Qed.

Lemma listener_body_Some (typ : TypeObj) (l l' : Listener) (needGc g : bool) :
  listener_body typ l needGc = Some (l', g) ->
  isActive l' = isActive l /\ g = needGc || negb (isActive l).
Proof.
  unfold listener_body, IsActive.
  destruct (isActive l) eqn:Ha; simpl.
  - rewrite orb_false_r.
    assert (Ho : (if bool_decide (RawUpdates l <> None)
                  then Some (send_RawUpdates l (Sent typ), needGc)
                  else Some (l, needGc)) = Some (l', g) ->
                 isActive l' = true /\ g = needGc).
    { destruct (bool_decide _); intros H; injection H as <- <-; simpl; auto. }
    destruct (bool_decide (Updates l <> None)); [|exact Ho].
    destruct (Filter l) as [X|]; [|discriminate].
    destruct (String.eqb _ _); [|exact Ho].
    destruct (String.eqb _ _); intros H; injection H as <- <-; simpl; auto.
  - rewrite orb_true_r. intros H. injection H as <- <-. auto.
Qed.

(** The loop panics exactly when it meets a listener with a nil filter. *)
Lemma range_Listeners_panics (typ : TypeObj) (ls : list Listener) (needGc : bool) :
  (exists ls', range_Listeners typ ls needGc = inr ls') <-> Exists nil_filtered ls.
Proof.
  revert needGc. induction ls as [|l ls IH]; intros needGc; simpl.
  - split; [intros (ls' & H); discriminate|intros H; inversion H].
  - destruct (listener_body typ l needGc) as [[l' g]|] eqn:Hb.
    + assert (Hn : ~ nil_filtered l).
      { intros H. apply (listener_body_None typ l needGc) in H. congruence. }
      specialize (IH g).
      destruct (range_Listeners typ ls g) as [[rest' g']|rest'].
      * split; [intros (ls' & H); discriminate|].
        intros H. apply Exists_cons in H as [H|H]; [contradiction|].
        apply IH in H as (ls' & H). discriminate.
      * split; [|intros _; eexists; reflexivity].
        intros _. apply Exists_cons. right. apply IH. eexists. reflexivity.
    + split; [|intros _; eexists; reflexivity].
      intros _. apply Exists_cons. left. apply (listener_body_None typ l needGc), Hb.
Qed.

(** The loop keeps the active flags and asks for a collection exactly when
    it has met an inactive listener. *)
Lemma range_Listeners_flags (typ : TypeObj) (ls ls' : list Listener) (needGc g : bool) :
  range_Listeners typ ls needGc = inl (ls', g) ->
  map isActive ls' = map isActive ls
  /\ g = needGc || existsb (fun l => negb (isActive l)) ls.
Proof.
  revert ls' needGc g. induction ls as [|l ls IH]; intros ls' needGc g; simpl.
  - intros H. injection H as <- <-. rewrite orb_false_r. auto.
  - destruct (listener_body typ l needGc) as [[l' g1]|] eqn:Hb; [|discriminate].
    destruct (listener_body_Some _ _ _ _ _ Hb) as [Ha Hg].
    destruct (range_Listeners typ ls g1) as [[rest' g2]|rest'] eqn:Hr; [|discriminate].
    intros H. injection H as <- <-.
    destruct (IH _ _ _ Hr) as [Hm Hg2].
    simpl. rewrite Ha, Hm, Hg2, Hg, orb_assoc. auto.
Qed.

Lemma filter_active_flags (ls ls' : list Listener) :
  map isActive ls' = map isActive ls ->
  length (List.filter isActive ls') = length (List.filter isActive ls).
Proof.
  revert ls'. induction ls as [|l ls IH]; intros [|l' ls'] H; try discriminate;
    [reflexivity|].
  simpl in H. injection H as Ha Hm. simpl. rewrite Ha.
  destruct (isActive l); simpl; rewrite (IH _ Hm); reflexivity.
Qed.

Lemma all_active_flags (ls ls' : list Listener) :
  map isActive ls' = map isActive ls ->
  existsb (fun l => negb (isActive l)) ls = false ->
  Forall (fun l => isActive l = true) ls' /\ List.filter isActive ls = ls.
Proof.
  revert ls'. induction ls as [|l ls IH]; intros [|l' ls'] H He; try discriminate.
  - split; [constructor|reflexivity].
  - simpl in H, He. injection H as Ha Hm.
    apply orb_false_iff in He as [Hl He]. apply negb_false_iff in Hl.
    destruct (IH _ Hm He) as [Hall Hf].
    split; [constructor; [congruence|exact Hall]|].
    simpl. rewrite Hl, Hf. reflexivity.
Qed.

Lemma Forall_filter_active (ls : list Listener) :
  Forall (fun l => isActive l = true) (List.filter isActive ls).
Proof.
  induction ls as [|l ls IH]; simpl; [constructor|].
  destruct (isActive l) eqn:Ha; [constructor; assumption|exact IH].
Qed.

(** The rest of the client through the last two steps. *)
Lemma to_pendingResp_configuration (client : Client) (response : Response)
    (typ : TypeObj) :
  let client' := to_pendingResp pendingUpdateType client response typ in
  responses client' = responses client
  /\ catchTimeout client' = catchTimeout client
  /\ updatesTimeout client' = updatesTimeout client.
Proof.
  unfold to_pendingResp. destruct (_ =? _)%nat; [|repeat split].
  generalize pendingUpdateType as pending. intros pending. revert client.
  induction pending as [|p rest IH]; intros client; simpl; [repeat split|].
  destruct (IH (if String.eqb (GetType typ) (GetType p)
                then set_pendingResp (pendingResp client ++ [response]) client
                else client)) as (H1 & H2 & H3).
  rewrite H1, H2, H3. destruct (String.eqb _ _); repeat split.
Qed.

Lemma to_listeners_configuration (client : Client) (typ : TypeObj) :
  let client' := final (to_listeners client typ) in
  responses client' = responses client
  /\ catchTimeout client' = catchTimeout client
  /\ updatesTimeout client' = updatesTimeout client.
Proof.
  unfold to_listeners.
  destruct (range_Listeners _ _ _) as [[ls [|]]|ls]; repeat split.
Qed.

Lemma range_pendingUpdateType_unconfigured (typ : TypeObj) (response : Response)
    (pending : list TypeObj) (client : Client) :
  configured_times typ pending = 0%nat ->
  range_pendingUpdateType typ response pending client = client.
Proof.
  unfold configured_times. revert client.
  induction pending as [|p rest IH]; intros client H; simpl in *; [reflexivity|].
  destruct (String.eqb (GetType typ) (GetType p)); [discriminate|]. apply IH, H.
Qed.

Lemma set_listenerStore_same (client : Client) :
  set_listenerStore (listenerStore client) client = client.
Proof. destruct client; reflexivity. Qed.

(** How the log of one catcher grows through the receiver. *)
Lemma receiver_loop_catcher (queue : list Response) (client client' : Client)
    (extra : string) (catcher : list Response) :
  extra <> EmptyString ->
  catchersStore client !! extra = Some catcher ->
  receiver_loop pendingUpdateType queue client = Returned client' ->
  catchersStore client' !! extra = Some (catcher ++ carrying extra queue).
Proof.
  intros Hne. revert client catcher.
  induction queue as [|response rest IH]; intros client catcher Hin Hr; simpl in *.
  - injection Hr as <-. rewrite app_nil_r. exact Hin.
  - pose proof (processResponse_catchersStore pendingUpdateType client response) as Hc.
    destruct (processResponse pendingUpdateType client response) as [client1|client1];
      [|discriminate].
    simpl in Hc.
    pose proof (to_catcher_store client response extra catcher Hin) as Hs.
    rewrite <- Hc in Hs.
    rewrite (IH _ _ Hs Hr).
    destruct (String.eqb_spec (resp_Extra response) extra) as [He|Hx].
    + rewrite bool_decide_eq_true_2 by auto. rewrite <- app_assoc. reflexivity.
    + rewrite bool_decide_eq_false_2 by (intros [H _]; contradiction). reflexivity.
Qed.

End MoreDispatcherFacts.

(** X4: whatever the response and however the call ends, the dispatcher
    neither registers nor removes a correlation entry in either store, only
    appends to the log of a catcher, and leaves the catch timeout, the
    patch switch and the queue of incoming responses as they are. *)
Theorem dispatch_keeps_keys_and_configuration {codec : Codec}
    (pendingUpdateType : list TypeObj) (client : Client) (response : Response) :
  let client' := final (processResponse pendingUpdateType client response) in
  dom (catchersStore client') = dom (catchersStore client)
  /\ dom (successMsgStore client') = dom (successMsgStore client)
  /\ (forall extra log,
        catchersStore client !! extra = Some log ->
        exists more, catchersStore client' !! extra = Some (log ++ more))
  /\ catchTimeout client' = catchTimeout client
  /\ DisablePatch client' = DisablePatch client
  /\ responses client' = responses client.
Proof.
  cbv zeta.
  assert (Hdom1 : dom (catchersStore (to_catcher client response))
                  = dom (catchersStore client)).
  { unfold to_catcher. destruct (negb _); [|reflexivity].
    destruct (catchersStore client !! resp_Extra response) as [catcher|] eqn:Hin;
      [|reflexivity].
    simpl. apply dom_insert_lookup_L. rewrite Hin. eauto. }
  destruct (to_catcher_frame client response) as (_ & _ & Hs0 & Hd0 & Hr0 & Ht0 & _).
  split; [rewrite processResponse_catchersStore; exact Hdom1|].
  assert (Hlog : forall extra log,
            catchersStore client !! extra = Some log ->
            exists more,
              catchersStore (final (processResponse pendingUpdateType client response))
                !! extra = Some (log ++ more)).
  { intros extra log Hin. rewrite processResponse_catchersStore.
    rewrite (to_catcher_store _ _ _ _ Hin).
    destruct (bool_decide _); [exists [response]; reflexivity|].
    exists []. rewrite app_nil_r. reflexivity. }
  destruct (UnmarshalType (resp_Data response)) as [typ|message] eqn:Hd.
  - destruct (processResponse_decoded pendingUpdateType client response typ Hd)
      as (client1 & Hs & Hp).
    rewrite Hp in *.
    destruct (to_successCatcher_frame (to_catcher client response) response typ)
      as (client1' & Hs' & _ & _ & _ & Hd1 & Hr1 & Ht1 & _).
    rewrite Hs in Hs'. injection Hs' as <-.
    destruct (to_pendingResp_frame pendingUpdateType client1 response typ)
      as (_ & _ & _ & Hs2 & Hd2).
    destruct (to_pendingResp_configuration pendingUpdateType client1 response typ)
      as (Hr2 & Ht2 & _).
    destruct (to_listeners_frame
                (to_pendingResp pendingUpdateType client1 response typ) typ)
      as (_ & _ & Hs3 & Hd3).
    destruct (to_listeners_configuration
                (to_pendingResp pendingUpdateType client1 response typ) typ)
      as (Hr3 & Ht3 & _).
    split; [|split; [exact Hlog|]].
    + rewrite Hs3, Hs2, <- Hs0.
      unfold to_successCatcher in Hs.
      destruct (negb _ && _); [|injection Hs as <-; reflexivity].
      destruct typ as [u|tag other]; [|discriminate].
      destruct (successMsgStore (to_catcher client response) !! OldMessageId u)
        as [sendVal|] eqn:Hin; injection Hs as <-; [|reflexivity].
      simpl. apply dom_insert_lookup_L. rewrite Hin. eauto.
    + rewrite Ht3, Ht2, Ht1, Ht0, Hd3, Hd2, Hd1, Hd0, Hr3, Hr2, Hr1, Hr0.
      repeat split.
  - rewrite (processResponse_undecoded pendingUpdateType client response message Hd) in *.
    simpl. rewrite Hs0, Hd0, Hr0, Ht0. split; [reflexivity|].
    split; [exact Hlog|]. repeat split.
Qed.

(** X5: when the receiver has gone through a queue of responses without a
    panic, the catcher stored under a non-empty correlation id holds, after
    what it held before, the responses of the queue that carry this id, in
    the order of the queue, and no other response. *)
Theorem catcher_gets_its_responses_in_order {codec : Codec}
    (pendingUpdateType : list TypeObj) (queue : list Response)
    (client client' : Client) (extra : string) (catcher : list Response) :
  extra <> EmptyString ->
  catchersStore client !! extra = Some catcher ->
  receiver_loop pendingUpdateType queue client = Returned client' ->
  catchersStore client' !! extra = Some (catcher ++ carrying extra queue)
  /\ Forall (fun response => resp_Extra response = extra) (carrying extra queue).
Proof.
  intros Hne Hin Hr.
  split; [exact (receiver_loop_catcher pendingUpdateType _ _ _ _ _ Hne Hin Hr)|].
  unfold carrying. apply List.Forall_forall. intros response H.
  apply filter_In in H as [_ H]. apply String.eqb_eq, H.
Qed.

(** Two calls wait; the answers come in the order first, second, first. *)
Lemma catcher_gets_its_responses_in_order_witness :
  let a1 := Sample.response "ok" "call-1" Sample.truncated in
  let b := Sample.response "ok" "call-2" Sample.truncated in
  let a2 := Sample.response "ok" "call-1" Sample.new_message in
  let client :=
    set_catchersStore {[ "call-1" := []; "call-2" := [] ]} Sample.client in
  exists client',
    receiver_loop (codec := Sample.codec) [] [a1; b; a2] client = Returned client'
    /\ catchersStore client' !! "call-1" = Some [a1; a2]
    /\ catchersStore client' !! "call-2" = Some [b].
Proof.
  intros a1 b a2 client.
  destruct (receiver_loop (codec := Sample.codec) [] [a1; b; a2] client)
    as [client'|client'] eqn:Hr; [|vm_compute in Hr; discriminate Hr].
  exists client'. split; [reflexivity|]. split.
  - exact (proj1 (catcher_gets_its_responses_in_order (codec := Sample.codec)
                    [] [a1; b; a2] client client' "call-1" []
                    ltac:(discriminate) eq_refl Hr)).
  - exact (proj1 (catcher_gets_its_responses_in_order (codec := Sample.codec)
                    [] [a1; b; a2] client client' "call-2" []
                    ltac:(discriminate) eq_refl Hr)).
Defined.

(** X6: when the registry holds an active listener with an [Updates]
    channel and a nil [Filter], the dispatch of a response that decodes
    does not return: it ends in the panic of [listener.Filter.GetType()]
    (line 136).  The registry is then not empty, so the loop over the
    pending types (lines 126-132) is not entered on the way.
    [AddEventReceiver] with a nil type and a capacity that is not negative
    registers such a listener, after which the dispatch of every response
    that decodes ends in that panic. *)
Theorem dispatch_panics_on_nil_filter {codec : Codec}
    (pendingUpdateType : list TypeObj) (client : Client) (response : Response)
    (typ : TypeObj) :
  UnmarshalType (resp_Data response) = Ok typ ->
  (Exists nil_filtered (listenerStore client) ->
   listenerStore client <> []
   /\ exists client',
        processResponse pendingUpdateType client response = Panicked client'
        /\ pendingResp client' = pendingResp client)
  /\ (forall capacity,
        0 <= capacity ->
        nil_filtered (AddEventReceiver client None capacity).1
        /\ exists client',
             processResponse pendingUpdateType
               (AddEventReceiver client None capacity).2 response
             = Panicked client').
Proof.
  intros Hd.
  assert (Hif : forall c,
            Exists nil_filtered (listenerStore c) ->
            listenerStore c <> []
            /\ exists c', processResponse pendingUpdateType c response = Panicked c'
                          /\ pendingResp c' = pendingResp c).
  { intros c Hex.
    assert (Hne : listenerStore c <> [])
      by (intros E; rewrite E in Hex; inversion Hex).
    split; [exact Hne|].
    pose proof (processResponse_pendingResp pendingUpdateType c response typ Hd) as Hp.
    rewrite bool_decide_eq_false_2, app_nil_r in Hp by exact Hne.
    destruct (processResponse_decoded pendingUpdateType c response typ Hd)
      as (client1 & Hs & Hr).
    rewrite Hr in Hp |- *.
    destruct (to_successCatcher_frame (to_catcher c response) response typ)
      as (client1' & Hs' & _ & Hl1 & _).
    rewrite Hs in Hs'. injection Hs' as <-.
    destruct (to_catcher_frame c response) as (_ & Hl0 & _).
    destruct (to_pendingResp_frame pendingUpdateType client1 response typ)
      as (_ & Hl2 & _).
    rewrite <- Hl0, <- Hl1, <- Hl2 in Hex.
    apply (range_Listeners_panics typ _ false) in Hex as (ls' & Hex).
    unfold to_listeners, ListenerStore.Listeners in Hp |- *.
    rewrite Hex in Hp |- *. eexists. split; [reflexivity|exact Hp]. }
  split; [apply Hif|].
  intros capacity _.
  assert (Hn : nil_filtered (AddEventReceiver client None capacity).1)
    by (repeat split; discriminate).
  split; [exact Hn|].
  destruct (Hif (AddEventReceiver client None capacity).2) as (_ & c' & Hc' & _).
  - simpl. unfold ListenerStore.Add. apply Exists_app. right. constructor. exact Hn.
  - exists c'. exact Hc'.
Qed.

(** A new client, [AddEventReceiver] with a nil type, and the first update
    that decodes. *)
Lemma dispatch_panics_on_nil_filter_witness :
  let response := Sample.response "updateNewMessage" EmptyString Sample.new_message in
  exists client',
    processResponse (codec := Sample.codec) []
      (AddEventReceiver Sample.client None 10).2 response
    = Panicked client'.
Proof.
  intros response.
  destruct (dispatch_panics_on_nil_filter (codec := Sample.codec) []
              Sample.client response Sample.updateNewMessage eq_refl) as [_ H].
  exact (proj2 (H 10 ltac:(lia))).
Defined.

(** X7: when the dispatch of a response that decodes returns, every
    listener left in the registry is active, and there are as many of them
    as there were active listeners before: the inactive ones are gone. *)
Theorem dispatch_collects_inactive_listeners {codec : Codec}
    (pendingUpdateType : list TypeObj) (client client' : Client)
    (response : Response) (typ : TypeObj) :
  UnmarshalType (resp_Data response) = Ok typ ->
  processResponse pendingUpdateType client response = Returned client' ->
  Forall (fun l => isActive l = true) (listenerStore client')
  /\ length (listenerStore client')
     = length (List.filter isActive (listenerStore client)).
Proof.
  intros Hd Hr.
  destruct (processResponse_decoded pendingUpdateType client response typ Hd)
    as (client1 & Hs & Hp).
  rewrite Hp in Hr.
  destruct (to_successCatcher_frame (to_catcher client response) response typ)
    as (client1' & Hs' & _ & Hl1 & _).
  rewrite Hs in Hs'. injection Hs' as <-.
  destruct (to_catcher_frame client response) as (_ & Hl0 & _).
  destruct (to_pendingResp_frame pendingUpdateType client1 response typ)
    as (_ & Hl2 & _).
  rewrite <- Hl0, <- Hl1, <- Hl2.
  unfold to_listeners, ListenerStore.Listeners, ListenerStore.gc in Hr.
  destruct (range_Listeners typ _ false) as [[ls g]|ls] eqn:Hrange; [|discriminate Hr].
  destruct (range_Listeners_flags _ _ _ _ _ Hrange) as [Hm Hg]. simpl in Hg.
  destruct g; injection Hr as <-; simpl.
  - split; [apply Forall_filter_active|]. apply filter_active_flags, Hm.
  - destruct (all_active_flags _ _ Hm (eq_sym Hg)) as [Hall Hf].
    split; [exact Hall|]. rewrite Hf.
    rewrite <- (length_map isActive ls), Hm, length_map. reflexivity.
Qed.

(** A raw listener that was closed and one that is open: after the next
    update only the open one is registered. *)
Lemma dispatch_collects_inactive_listeners_witness :
  let client := (GetListener (close_listener 0 (GetListener Sample.client).2)).2 in
  let response := Sample.response "updateNewMessage" EmptyString Sample.new_message in
  exists client',
    processResponse (codec := Sample.codec) [] client response = Returned client'
    /\ Forall (fun l => isActive l = true) (listenerStore client')
    /\ length (listenerStore client') = 1%nat.
Proof.
  intros client response.
  destruct (processResponse (codec := Sample.codec) [] client response)
    as [client'|client'] eqn:Hr; [|vm_compute in Hr; discriminate Hr].
  exists client'. split; [reflexivity|].
  exact (dispatch_collects_inactive_listeners (codec := Sample.codec) [] client client'
           response Sample.updateNewMessage eq_refl Hr).
Defined.

(** X8: an update that arrives while no listener is registered, whose type
    is not configured as pending and which no call waits for, is dropped:
    the dispatcher returns the client as it was. *)
Theorem early_unconfigured_update_is_dropped {codec : Codec}
    (pendingUpdateType : list TypeObj) (client : Client) (response : Response)
    (typ : TypeObj) :
  UnmarshalType (resp_Data response) = Ok typ ->
  listenerStore client = [] ->
  configured_times typ pendingUpdateType = 0%nat ->
  catchersStore client !! resp_Extra response = None ->
  successMsgStore client = ∅ ->
  processResponse pendingUpdateType client response = Returned client.
Proof.
  intros Hd Hl Hc Hcatch Hsucc.
  unfold processResponse.
  assert (H1 : to_catcher client response = client).
  { unfold to_catcher. rewrite Hcatch. destruct (negb _); reflexivity. }
  rewrite H1, Hd.
  assert (H2 : to_successCatcher client response typ = Some client).
  { clear Hd Hc. unfold to_successCatcher. destruct typ as [u|tag other]; simpl.
    - destruct (negb _ && _); [rewrite Hsucc, lookup_empty|]; reflexivity.
    - destruct (String.eqb tag TypeUpdateMessageSendSucceeded); [destruct other|].
      rewrite andb_false_r. reflexivity. }
  rewrite H2.
  assert (H3 : to_pendingResp pendingUpdateType client response typ = client).
  { unfold to_pendingResp. destruct (_ =? _)%nat; [|reflexivity].
    apply range_pendingUpdateType_unconfigured, Hc. }
  rewrite H3. unfold to_listeners, ListenerStore.Listeners. rewrite Hl. simpl.
  rewrite <- Hl. rewrite set_listenerStore_same. reflexivity.
Qed.

(** A new client, no pending type, and an update of type updateNewMessage. *)
Lemma early_unconfigured_update_is_dropped_witness :
  let response := Sample.response "updateNewMessage" EmptyString Sample.new_message in
  processResponse (codec := Sample.codec) [Sample.updateUserStatus] Sample.client response
  = Returned Sample.client.
Proof.
  intros response.
  exact (early_unconfigured_update_is_dropped (codec := Sample.codec)
           [Sample.updateUserStatus] Sample.client response Sample.updateNewMessage
           eq_refl eq_refl eq_refl eq_refl eq_refl).
Defined.

Section BuiltFacts.
Context {codec : Codec}.
Variable pendingUpdateType : list TypeObj.

Lemma known_options_keep_stores (options : list Option) (client : Client) :
  Forall known_option options ->
  let client' := fold_left (fun client option => option client) options client in
  responses client' = responses client
  /\ pendingResp client' = pendingResp client
  /\ listenerStore client' = listenerStore client
  /\ catchersStore client' = catchersStore client
  /\ successMsgStore client' = successMsgStore client.
Proof.
  intros H. revert client.
  induction H as [|option options Ho _ IH]; intros client; simpl; [repeat split|].
  destruct (IH (option client)) as (H1 & H2 & H3 & H4 & H5).
  rewrite H1, H2, H3, H4, H5.
  destruct Ho as [->|(timeout & ->)]; repeat split.
Qed.

Lemma Close_created (l : Listener) : created l -> created (Close l).
Proof.
  intros [(Hu & Hr & Hf)|(X & Hu & Hr & Hf)]; [left|right; exists X]; repeat split;
    assumption.
Qed.

Lemma close_listener_created (i : nat) (client : Client) :
  Forall created (listenerStore client) ->
  Forall created (listenerStore (close_listener i client)).
Proof.
  intros H. simpl. apply Forall_alter; [exact H|].
  intros l _ Hl. apply Close_created, Hl.
Qed.

(** With listeners made by the constructors the loop over the listeners
    meets no nil [Filter], and the dispatcher leaves such listeners. *)
Lemma created_dispatch_returns (client : Client) (response : Response) :
  Forall created (listenerStore client) ->
  exists client',
    processResponse pendingUpdateType client response = Returned client'
    /\ Forall created (listenerStore client').
Proof.
  intros H.
  pose proof (processResponse_keeps_created pendingUpdateType client response H) as Hk.
  destruct (UnmarshalType (resp_Data response)) as [typ|message] eqn:Hd.
  - destruct (processResponse_created pendingUpdateType client response typ Hd H)
      as (client' & Hr & _).
    rewrite Hr in Hk. exists client'. split; [exact Hr|exact Hk].
  - rewrite (processResponse_undecoded pendingUpdateType client response message Hd) in *.
    eexists. split; [reflexivity|exact Hk].
Qed.

Lemma created_worker_step (client : Client) (at_ : WorkerAt) :
  Forall created (listenerStore client) ->
  Forall created (listenerStore (processPendingResponse_step pendingUpdateType client at_).1)
  /\ (at_ <> WorkerPanicked ->
      (processPendingResponse_step pendingUpdateType client at_).2 <> WorkerPanicked).
Proof.
  intros H. destruct at_; simpl.
  - destruct (_ =? _)%nat; split; try exact H; discriminate.
  - destruct (_ <? _)%nat; split; try exact H; discriminate.
  - destruct (pendingResp client) as [|response rest]; [split; [exact H|discriminate]|].
    destruct (created_dispatch_returns (set_pendingResp rest client) response H)
      as (client' & -> & Hc).
    split; [exact Hc|discriminate].
  - split; [exact H|discriminate].
  - split; [exact H|]. intros Hn. contradiction.
Qed.

Lemma Built_created (client : Client) :
  Built pendingUpdateType client -> Forall created (listenerStore client).
Proof.
  intros H. induction H as [options Ho|client _ IH|client X capacity _ IH
                            |client i _ IH|client response _ IH|client at_ _ IH
                            |client e _ IH].
  - unfold NewClient.
    destruct (known_options_keep_stores options
                (set_catchTimeout (60 * Second)
                   {| responses := []; pendingResp := [];
                      listenerStore := ListenerStore.newListenerStore;
                      catchersStore := ∅; successMsgStore := ∅;
                      updatesTimeout := 0; catchTimeout := 0; DisablePatch := false |})
                Ho) as (_ & _ & -> & _).
    constructor.
  - apply GetListener_created, IH.
  - apply AddEventReceiver_created, IH.
  - apply close_listener_created, IH.
  - apply processResponse_keeps_created, IH.
  - apply created_worker_step, IH.
  - destruct e; exact IH.
Qed.

End BuiltFacts.

(** X9: in every client that a program has come to through [NewClient]
    with the options of this file, [GetListener], [AddEventReceiver] with
    types that are not nil, the closing of listeners, the dispatcher, the
    worker and [Send], each registered listener is as its constructor made
    it: either it has a [RawUpdates] channel, no [Updates] channel and a
    nil [Filter], or it has an [Updates] channel, no [RawUpdates] channel
    and a [Filter] that is not nil.  So no registered listener has an
    [Updates] channel together with a nil [Filter], which is what the call
    [listener.Filter.GetType()] of line 136 needs to panic.  Nothing is
    said here of the other ways in which the dispatcher can stop. *)
Theorem built_registries_hold_no_nil_filter {codec : Codec}
    (pendingUpdateType : list TypeObj) (client : Client) :
  Built pendingUpdateType client ->
  Forall (fun listener =>
            (Updates listener = None /\ RawUpdates listener <> None
             /\ Filter listener = None)
            \/ (Updates listener <> None /\ RawUpdates listener = None
                /\ Filter listener <> None))
         (listenerStore client)
  /\ ~ Exists nil_filtered (listenerStore client).
Proof.
  intros H. apply Built_created in H. split.
  - eapply Forall_impl; [exact H|].
    intros l [(Hu & Hr & Hf)|(X & Hu & Hr & Hf)]; [left|right]; repeat split;
      try assumption.
    rewrite Hf. discriminate.
  - intros Hex. apply List.Exists_exists in Hex as (l & Hin & _ & Hu & Hf).
    rewrite List.Forall_forall in H.
    destruct (H l Hin) as [(Hu' & _)|(X & _ & _ & Hf')]; congruence.
Qed.

(** A client with the patch switched off, a raw listener that is closed
    again, a listener for updateNewMessage, and the dispatch of an update
    of that type, which collects the closed listener. *)
Lemma built_registries_hold_no_nil_filter_witness :
  let client :=
    (AddEventReceiver
       (close_listener 0 (GetListener (NewClient [WithoutSendMessagePatch])).2)
       (Some Sample.updateNewMessage) 10).2 in
  let response := Sample.response "updateNewMessage" EmptyString Sample.new_message in
  let client' :=
    final (processResponse (codec := Sample.codec) [Sample.updateNewMessage]
             client response) in
  length (listenerStore client) = 2%nat
  /\ length (listenerStore client') = 1%nat
  /\ ~ Exists nil_filtered (listenerStore client)
  /\ ~ Exists nil_filtered (listenerStore client').
Proof.
  intros client response client'.
  assert (Hb : Built (codec := Sample.codec) [Sample.updateNewMessage] client).
  { apply Built_AddEventReceiver, Built_Close, Built_GetListener, Built_NewClient.
    constructor; [left; reflexivity|constructor]. }
  split; [reflexivity|]. split; [reflexivity|]. split.
  - exact (proj2 (built_registries_hold_no_nil_filter (codec := Sample.codec)
                    [Sample.updateNewMessage] client Hb)).
  - exact (proj2 (built_registries_hold_no_nil_filter (codec := Sample.codec)
                    [Sample.updateNewMessage] client'
                    (Built_processResponse [Sample.updateNewMessage] client response Hb))).
Defined.

(** X10: while no listener is registered, the worker does not get the
    buffer empty: a buffered update whose type is configured goes through
    the dispatcher back onto the buffer, once for every entry of the list
    with its tag, so that after any number of steps the worker is still in
    its loop with a buffer that is at least as long. *)
Theorem worker_spins_without_listeners {codec : Codec}
    (pendingUpdateType : list TypeObj) (n : nat) (client : Client) :
  listenerStore client = [] ->
  Forall (fun response =>
            exists typ, UnmarshalType (resp_Data response) = Ok typ
                        /\ (0 < configured_times typ pendingUpdateType)%nat)
         (pendingResp client) ->
  let after := processPendingResponse_run pendingUpdateType n client Drain in
  after.2 = Drain
  /\ listenerStore after.1 = []
  /\ (length (pendingResp client) <= length (pendingResp after.1))%nat.
Proof.
  revert client. induction n as [|n IH]; intros client Hl Hall;
    [simpl; split; [reflexivity|split; [exact Hl|lia]]|].
  cbv zeta. simpl processPendingResponse_run.
  unfold processPendingResponse_step.
  destruct (pendingResp client) as [|response rest] eqn:Hb.
  - specialize (IH client Hl). rewrite Hb in IH. apply (IH Hall).
  - apply Forall_cons in Hall as [(typ & Hd & Hk) Hrest].
    destruct (processResponse_created pendingUpdateType (set_pendingResp rest client)
                response typ Hd) as (client1 & Hr & Hl1 & Hp1).
    { simpl. rewrite Hl. constructor. }
    rewrite Hr. simpl in Hl1, Hp1. rewrite Hl in Hl1, Hp1. simpl in Hl1, Hp1.
    destruct (IH client1 Hl1) as (H1 & H2 & H3).
    { rewrite Hp1. apply Forall_app. split; [exact Hrest|].
      apply Forall_forall. intros x Hx. apply list_elem_of_In, repeat_spec in Hx.
      subst x. exists typ. split; assumption. }
    split; [exact H1|]. split; [exact H2|].
    rewrite Hp1, length_app, repeat_length in H3. simpl. lia.
Qed.

(** No listener is registered, the type updateNewMessage is configured,
    and one update of that type is on the buffer of the worker. *)
Lemma worker_spins_without_listeners_witness :
  let response := Sample.response "updateNewMessage" EmptyString Sample.new_message in
  let client := set_pendingResp [response] Sample.client in
  let after :=
    processPendingResponse_run (codec := Sample.codec) [Sample.updateNewMessage]
      7 client Drain in
  after.2 = Drain /\ (1 <= length (pendingResp after.1))%nat.
Proof.
  intros response client after.
  destruct (worker_spins_without_listeners (codec := Sample.codec)
              [Sample.updateNewMessage] 7 client eq_refl) as (H1 & _ & H3).
  - constructor; [|constructor]. exists Sample.updateNewMessage.
    split; [reflexivity|]. vm_compute. lia.
  - split; [exact H1|exact H3].
Defined.

(** X11: a response that a call waits for and that decodes is not kept
    from the listeners: the dispatcher puts it on the catcher of the call
    and then hands the decoded object to the listeners like any update. *)
Theorem correlated_response_also_reaches_listeners {codec : Codec}
    (pendingUpdateType : list TypeObj) (client : Client) (response : Response)
    (typ : TypeObj) (catcher : list Response) :
  resp_Extra response <> EmptyString ->
  catchersStore client !! resp_Extra response = Some catcher ->
  UnmarshalType (resp_Data response) = Ok typ ->
  Forall created (listenerStore client) ->
  exists client',
    processResponse pendingUpdateType client response = Returned client'
    /\ catchersStore client' !! resp_Extra response = Some (catcher ++ [response])
    /\ (forall l ch,
          l ∈ listenerStore client -> isActive l = true ->
          raw_listener l -> RawUpdates l = Some ch ->
          exists l', l' ∈ listenerStore client'
                     /\ RawUpdates l' = Some (ch ++ [Sent typ])).
Proof.
  intros Hne Hin Hd Hc.
  destruct (processResponse_created pendingUpdateType client response typ Hd Hc)
    as (client' & Hr & Hl & _).
  exists client'. split; [exact Hr|]. split.
  - pose proof (processResponse_catchersStore pendingUpdateType client response) as H.
    rewrite Hr in H. simpl in H. rewrite H, (to_catcher_store _ _ _ _ Hin).
    rewrite bool_decide_eq_true_2 by auto. reflexivity.
  - intros l ch Hl0 Ha (Hu & Hraw & Hf) Hch.
    exists (receives typ l). split.
    + rewrite Hl. apply list_elem_of_In, filter_In.
      split; [apply in_map, list_elem_of_In, Hl0|].
      rewrite receives_isActive. exact Ha.
    + unfold receives. rewrite Ha, Hf. simpl. rewrite Hch. reflexivity.
Qed.

(** A call waits under the id call-1 and a raw listener is registered; the
    answer is an object the decoder knows. *)
Lemma correlated_response_also_reaches_listeners_witness :
  let client :=
    set_catchersStore {[ "call-1" := [] ]} (GetListener Sample.client).2 in
  let response := Sample.response "updateNewMessage" "call-1" Sample.new_message in
  exists client',
    processResponse (codec := Sample.codec) [] client response = Returned client'
    /\ catchersStore client' !! "call-1" = Some [response]
    /\ exists l', l' ∈ listenerStore client'
                  /\ RawUpdates l' = Some [Sent Sample.updateNewMessage].
Proof.
  intros client response.
  destruct (correlated_response_also_reaches_listeners (codec := Sample.codec) []
              client response Sample.updateNewMessage [])
    as (client' & Hr & Hc & Hl).
  - discriminate.
  - reflexivity.
  - reflexivity.
  - constructor; [|constructor]. left. repeat split. discriminate.
  - exists client'. split; [exact Hr|]. split; [exact Hc|].
    apply (Hl (GetListener Sample.client).1 []).
    + apply list_elem_of_singleton. reflexivity.
    + reflexivity.
    + repeat split. discriminate.
    + reflexivity.
Defined.

Lemma delivery_of_class (typ : TypeObj) :
  delivery_of typ
  = match typ with
    | AsUpdateMessageSendSucceeded _ => SentAfter (5 * Millisecond) typ
    | OtherClass _ _ => Sent typ
    end.
Proof.
  destruct typ as [u|tag other]; [reflexivity|].
  unfold delivery_of. simpl.
  assert (E : String.eqb tag TypeUpdateMessageSendSucceeded = false).
  { pose proof (negb_prop_elim _ other) as Ho.
    destruct (String.eqb tag TypeUpdateMessageSendSucceeded); [|reflexivity].
    exfalso. apply Ho. exact I. }
  rewrite E. reflexivity.
Qed.

(** X12: the delay of 5 milliseconds is for filtered listeners only.  A
    send-succeeded update reaches a listener whose filter has its type
    through a goroutine that first sleeps 5 milliseconds, and reaches a
    listener without filter at once; an update of any other type reaches
    both kinds at once. *)
Theorem only_filtered_send_succeeded_is_delayed {codec : Codec}
    (pendingUpdateType : list TypeObj) (client : Client) (response : Response)
    (typ : TypeObj) :
  UnmarshalType (resp_Data response) = Ok typ ->
  Forall created (listenerStore client) ->
  exists client',
    processResponse pendingUpdateType client response = Returned client'
    /\ (forall l ch,
          l ∈ listenerStore client -> isActive l = true ->
          raw_listener l -> RawUpdates l = Some ch ->
          exists l', l' ∈ listenerStore client'
                     /\ RawUpdates l' = Some (ch ++ [Sent typ]))
    /\ (forall l X ch,
          l ∈ listenerStore client -> isActive l = true ->
          filtered_listener X l -> GetType X = GetType typ -> Updates l = Some ch ->
          exists l', l' ∈ listenerStore client'
                     /\ Updates l'
                        = Some (ch ++ [match typ with
                                       | AsUpdateMessageSendSucceeded _ =>
                                           SentAfter (5 * Millisecond) typ
                                       | OtherClass _ _ => Sent typ
                                       end])).
Proof.
  intros Hd Hc.
  destruct (processResponse_created pendingUpdateType client response typ Hd Hc)
    as (client' & Hr & Hl & _).
  exists client'. split; [exact Hr|].
  assert (Hin : forall l, l ∈ listenerStore client -> isActive l = true ->
                  receives typ l ∈ listenerStore client').
  { intros l Hl0 Ha. rewrite Hl. apply list_elem_of_In, filter_In.
    split; [apply in_map, list_elem_of_In, Hl0|].
    rewrite receives_isActive. exact Ha. }
  split.
  - intros l ch Hl0 Ha (Hu & Hraw & Hf) Hch.
    exists (receives typ l). split; [apply Hin; assumption|].
    unfold receives. rewrite Ha, Hf. simpl. rewrite Hch. reflexivity.
  - intros l X ch Hl0 Ha (Hu & Hraw & Hf) HX Hch.
    exists (receives typ l). split; [apply Hin; assumption|].
    unfold receives. rewrite Ha, Hf, HX, String.eqb_refl, delivery_of_class. simpl.
    rewrite Hch. reflexivity.
Qed.

(** A listener for send-succeeded updates and a raw listener, and the
    update that reports final id 500. *)
Lemma only_filtered_send_succeeded_is_delayed_witness :
  let succeeded := AsUpdateMessageSendSucceeded Sample.succeeded100 in
  let client :=
    (GetListener (AddEventReceiver Sample.client (Some succeeded) 10).2).2 in
  let response := Sample.response "updateMessageSendSucceeded" EmptyString
                    Sample.send_succeeded in
  exists client',
    processResponse (codec := Sample.codec) [] client response = Returned client'
    /\ (exists l', l' ∈ listenerStore client'
                   /\ RawUpdates l' = Some [Sent succeeded])
    /\ (exists l', l' ∈ listenerStore client'
                   /\ Updates l' = Some [SentAfter (5 * Millisecond) succeeded]).
Proof.
  intros succeeded client response.
  destruct (only_filtered_send_succeeded_is_delayed (codec := Sample.codec) []
              client response succeeded eq_refl)
    as (client' & Hr & Hraw & Hfil).
  - constructor; [|constructor; [|constructor]].
    + right. exists succeeded. repeat split. discriminate.
    + left. repeat split. discriminate.
  - exists client'. split; [exact Hr|]. split.
    + apply (Hraw (GetListener Sample.client).1 []).
      * apply elem_of_cons. right. apply list_elem_of_singleton. reflexivity.
      * reflexivity.
      * repeat split. discriminate.
      * reflexivity.
    + apply (Hfil (AddEventReceiver Sample.client (Some succeeded) 10).1 succeeded []).
      * apply elem_of_cons. left. reflexivity.
      * reflexivity.
      * repeat split. discriminate.
      * reflexivity.
      * reflexivity.
Defined.

(* ===================================================================== *)
(** ** Further facts about the configuration and about Send               *)
(* ===================================================================== *)

Section OptionFacts.

Lemma options_differ (timeout : Z) : WithoutSendMessagePatch <> WithCatchTimeout timeout.
Proof.
  intros H. apply (f_equal (fun option => DisablePatch (option (NewClient [])))) in H.
  discriminate H.
Qed.

Lemma known_options_patch (options : list Option) (client : Client) :
  Forall known_option options ->
  DisablePatch (fold_left (fun client option => option client) options client) = true
  <-> DisablePatch client = true \/ WithoutSendMessagePatch ∈ options.
Proof.
  intros H. revert client.
  induction H as [|option options Ho _ IH]; intros client; simpl.
  - split; [auto|]. intros [H|H]; [exact H|]. apply elem_of_nil in H. contradiction.
  - rewrite IH, elem_of_cons. destruct Ho as [->|(timeout & ->)]; simpl.
    + split; [auto|]. intros _. auto.
    + split; [intros [H|H]; auto|].
      intros [H|[H|H]]; auto. exfalso. exact (options_differ timeout H).
Qed.

Lemma patch_options_keep_timeout (options : list Option) (client : Client) :
  Forall (fun option => option = WithoutSendMessagePatch) options ->
  catchTimeout (fold_left (fun client option => option client) options client)
  = catchTimeout client.
Proof.
  intros H. revert client.
  induction H as [|option options -> _ IH]; intros client; simpl; [reflexivity|].
  rewrite IH. reflexivity.
Qed.

Lemma processResponse_configuration {codec : Codec}
    (pendingUpdateType : list TypeObj) (client : Client) (response : Response) :
  let client' := final (processResponse pendingUpdateType client response) in
  DisablePatch client' = DisablePatch client
  /\ catchTimeout client' = catchTimeout client.
Proof.
  cbv zeta.
  destruct (to_catcher_frame client response) as (_ & _ & _ & Hd0 & _ & Ht0 & _).
  destruct (UnmarshalType (resp_Data response)) as [typ|message] eqn:Hd.
  - destruct (processResponse_decoded pendingUpdateType client response typ Hd)
      as (client1 & Hs & ->).
    destruct (to_successCatcher_frame (to_catcher client response) response typ)
      as (client1' & Hs' & _ & _ & _ & Hd1 & _ & Ht1 & _).
    rewrite Hs in Hs'. injection Hs' as <-.
    destruct (to_pendingResp_frame pendingUpdateType client1 response typ)
      as (_ & _ & _ & _ & Hd2).
    destruct (to_pendingResp_configuration pendingUpdateType client1 response typ)
      as (_ & Ht2 & _).
    destruct (to_listeners_frame
                (to_pendingResp pendingUpdateType client1 response typ) typ)
      as (_ & _ & _ & Hd3).
    destruct (to_listeners_configuration
                (to_pendingResp pendingUpdateType client1 response typ) typ)
      as (_ & Ht3 & _).
    rewrite Hd3, Hd2, Hd1, Hd0, Ht3, Ht2, Ht1, Ht0. split; reflexivity.
  - rewrite (processResponse_undecoded pendingUpdateType client response message Hd).
    simpl. rewrite Hd0, Ht0. split; reflexivity.
Qed.

(** No function of client.go assigns the catch timeout or the patch switch
    once the options have been applied. *)
Lemma After_configuration {codec : Codec} (pendingUpdateType : list TypeObj)
    (start client : Client) :
  After pendingUpdateType start client ->
  DisablePatch client = DisablePatch start
  /\ catchTimeout client = catchTimeout start.
Proof.
  intros H. induction H as [|client _ IH|client msgType capacity _ IH
                            |client i _ IH|client response _ IH|client at_ _ IH
                            |client e _ IH].
  - split; reflexivity.
  - exact IH.
  - exact IH.
  - exact IH.
  - destruct (processResponse_configuration pendingUpdateType client response)
      as (-> & ->). exact IH.
  - destruct at_; simpl.
    + destruct (_ =? _)%nat; exact IH.
    + destruct (_ <? _)%nat; exact IH.
    + destruct (pendingResp client) as [|response rest]; [exact IH|].
      pose proof (processResponse_configuration pendingUpdateType
                    (set_pendingResp rest client) response) as Hc.
      destruct (processResponse pendingUpdateType (set_pendingResp rest client)
                  response) as [client'|client']; simpl in Hc |- *;
        destruct Hc as (-> & ->); exact IH.
    + exact IH.
    + exact IH.
  - destruct e; exact IH.
Qed.

End OptionFacts.

(** X13: when [NewClient] has applied its options (lines 77-91, with the
    options [WithCatchTimeout] and [WithoutSendMessagePatch]), the patch is
    switched off exactly when [WithoutSendMessagePatch] is among them, and
    the catch timeout is the one of the last [WithCatchTimeout] among them,
    and 60 seconds when there is none.  Neither setting is assigned again:
    every client that comes after the configured one, through the
    dispatcher and the worker that [NewClient] starts, the effects of
    [Send] and the registration and closing of listeners, has the same
    two. *)
Theorem NewClient_options_set_timeout_and_patch {codec : Codec}
    (pendingUpdateType : list TypeObj) (options : list Option) :
  Forall known_option options ->
  let client := NewClient options in
  (DisablePatch client = true <-> WithoutSendMessagePatch ∈ options)
  /\ (forall before timeout after,
        options = before ++ WithCatchTimeout timeout :: after ->
        Forall (fun option => option = WithoutSendMessagePatch) after ->
        catchTimeout client = timeout)
  /\ (Forall (fun option => option = WithoutSendMessagePatch) options ->
      catchTimeout client = 60 * Second)
  /\ (forall later,
        After pendingUpdateType client later ->
        DisablePatch later = DisablePatch client
        /\ catchTimeout later = catchTimeout client).
Proof.
  intros Hk. cbv zeta. split; [|split; [|split]].
  - unfold NewClient. set (client0 := set_catchTimeout (60 * Second) _).
    rewrite (known_options_patch options client0 Hk).
    split; [intros [H|H]; [discriminate H|exact H]|auto].
  - intros before timeout after -> Hafter. unfold NewClient.
    rewrite fold_left_app. simpl. rewrite patch_options_keep_timeout by exact Hafter.
    reflexivity.
  - intros Hall. unfold NewClient.
    rewrite patch_options_keep_timeout by exact Hall. reflexivity.
  - intros later. apply After_configuration.
Qed.

(** Two timeouts and the switch of the patch between them; afterwards a
    listener is registered and an update is dispatched. *)
Lemma NewClient_options_set_timeout_and_patch_witness :
  let client :=
    NewClient [WithCatchTimeout (5 * Second); WithoutSendMessagePatch;
               WithCatchTimeout (10 * Second)] in
  let response := Sample.response "updateNewMessage" EmptyString Sample.new_message in
  let later :=
    final (processResponse (codec := Sample.codec) [] (GetListener client).2 response) in
  DisablePatch client = true /\ catchTimeout client = 10 * Second
  /\ DisablePatch later = true /\ catchTimeout later = 10 * Second.
Proof.
  intros client response later.
  destruct (NewClient_options_set_timeout_and_patch (codec := Sample.codec) []
              [WithCatchTimeout (5 * Second); WithoutSendMessagePatch;
               WithCatchTimeout (10 * Second)])
    as (Hp & Ht & _ & Hl).
  - constructor; [right; eexists; reflexivity|].
    constructor; [left; reflexivity|].
    constructor; [right; eexists; reflexivity|constructor].
  - assert (H1 : DisablePatch client = true).
    { apply Hp. apply elem_of_cons. right. apply elem_of_cons. left. reflexivity. }
    assert (H2 : catchTimeout client = 10 * Second).
    { apply (Ht [WithCatchTimeout (5 * Second); WithoutSendMessagePatch]
               (10 * Second) []); [reflexivity|constructor]. }
    destruct (Hl later) as (H3 & H4).
    { apply After_processResponse, After_GetListener, After_start. }
    split; [exact H1|]. split; [exact H2|].
    split; [rewrite H3; exact H1|rewrite H4; exact H2].
Defined.

(** X14: when [Send] has returned, whatever its result, the catcher store
    is the store before the call without the entry of the generated id, and
    the secondary store is the store before the call, without the entry of
    the temporary id if the call stored one; nothing else of the client has
    changed: the registry, the buffer, the queue of incoming responses, the
    two timeouts and the patch switch are as before.  An entry that another call held under the same key is
    removed with it. *)
Theorem Send_leaves_the_stores_clean {codec : Codec}
    (client : Client) (req : Request) (env : Surroundings) :
  let effects := (Send client req env).2 in
  let after := fold_left apply_Effect effects client in
  catchersStore after = delete (generated_extra env) (catchersStore client)
  /\ ((forall id, successMsgStore_Store id ∉ effects)
      /\ successMsgStore after = successMsgStore client
      \/ exists id, successMsgStore_Store id ∈ effects
                    /\ successMsgStore after = delete id (successMsgStore client))
  /\ listenerStore after = listenerStore client
  /\ pendingResp after = pendingResp client
  /\ catchTimeout after = catchTimeout client
  /\ DisablePatch after = DisablePatch client
  /\ responses after = responses client
  /\ updatesTimeout after = updatesTimeout client.
Proof.
  cbv zeta.
  assert (Hshort : forall r : option Response * option error,
            let effects :=
              [catchersStore_Store (generated_extra env);
               jsonClient_Send (Request_set_Extra req (generated_extra env));
               wait_catcher (catchTimeout client);
               catchersStore_Delete (generated_extra env)] in
            let after := fold_left apply_Effect (r, effects).2 client in
            catchersStore after = delete (generated_extra env) (catchersStore client)
            /\ ((forall id, successMsgStore_Store id ∉ (r, effects).2)
                /\ successMsgStore after = successMsgStore client
                \/ exists id, successMsgStore_Store id ∈ (r, effects).2
                              /\ successMsgStore after
                                 = delete id (successMsgStore client))
            /\ listenerStore after = listenerStore client
            /\ pendingResp after = pendingResp client
            /\ catchTimeout after = catchTimeout client
            /\ DisablePatch after = DisablePatch client
            /\ responses after = responses client
            /\ updatesTimeout after = updatesTimeout client).
  { intros r. simpl. split; [apply delete_insert_eq|].
    split; [|repeat split]. left. split; [|reflexivity].
    intros id H. absent_from_trace H. }
  unfold Send.
  destruct (select_with_timeout (on_catcher env) _ _) as [response|]; [|apply Hshort].
  destruct (_ && _ && _); [|apply Hshort].
  destruct (UnmarshalMessage (resp_Data response)) as [m|message]; [|apply Hshort].
  destruct (_ || _); [|apply Hshort].
  assert (Hlong : forall r : option Response * option error,
            let effects :=
              [catchersStore_Store (generated_extra env);
               jsonClient_Send (Request_set_Extra req (generated_extra env));
               wait_catcher (catchTimeout client);
               successMsgStore_Store (Id m); wait_successCatcher (1 * Second);
               successMsgStore_Delete (Id m);
               catchersStore_Delete (generated_extra env)] in
            let after := fold_left apply_Effect (r, effects).2 client in
            catchersStore after = delete (generated_extra env) (catchersStore client)
            /\ ((forall id, successMsgStore_Store id ∉ (r, effects).2)
                /\ successMsgStore after = successMsgStore client
                \/ exists id, successMsgStore_Store id ∈ (r, effects).2
                              /\ successMsgStore after
                                 = delete id (successMsgStore client))
            /\ listenerStore after = listenerStore client
            /\ pendingResp after = pendingResp client
            /\ catchTimeout after = catchTimeout client
            /\ DisablePatch after = DisablePatch client
            /\ responses after = responses client
            /\ updatesTimeout after = updatesTimeout client).
  { intros r. simpl. split; [apply delete_insert_eq|].
    split; [|repeat split]. right. exists (Id m). split; [|apply delete_insert_eq].
    do 3 (apply elem_of_cons; right). apply elem_of_cons. left. reflexivity. }
  destruct (select_with_timeout (on_successCatcher env) _ _) as [modResponse|];
    [destruct (UnmarshalUpdateMessageSendSucceeded _)|]; apply Hlong.
Qed.

(** X15: every call of [Send] stores its catcher before it hands the
    request to the transport, hands the request over once, with the
    generated correlation id and the type and payload of the caller, and
    deletes the catcher last.  Its result is either an error without a
    response, or a response without an error that has the type and the
    correlation id of the response it received. *)
Theorem Send_order_and_result {codec : Codec}
    (client : Client) (req : Request) (env : Surroundings) :
  (exists between,
     (Send client req env).2
     = [catchersStore_Store (generated_extra env);
        jsonClient_Send {| req_Type := req_Type req;
                           req_Extra := generated_extra env;
                           req_Data := req_Data req |};
        wait_catcher (catchTimeout client)]
       ++ between ++ [catchersStore_Delete (generated_extra env)]
     /\ Forall (fun e => forall sent, e <> jsonClient_Send sent) between)
  /\ ((exists e, (Send client req env).1 = (None, Some e))
      \/ exists returned response,
           (Send client req env).1 = (Some returned, None)
           /\ select_with_timeout (on_catcher env) (catchTimeout client)
                (tie_catcher env) = Received response
           /\ resp_Type returned = resp_Type response
           /\ resp_Extra returned = resp_Extra response).
Proof.
  unfold Send.
  destruct (select_with_timeout (on_catcher env) _ _) as [response|].
  2: { split; [exists []; split; [reflexivity|constructor]|]. left. eexists. reflexivity. }
  destruct (_ && _ && _).
  2: { split; [exists []; split; [reflexivity|constructor]|].
       right. exists response, response. repeat split. }
  destruct (UnmarshalMessage (resp_Data response)) as [m|message].
  2: { split; [exists []; split; [reflexivity|constructor]|]. left. eexists. reflexivity. }
  destruct (_ || _).
  2: { split; [exists []; split; [reflexivity|constructor]|].
       right. exists response, response. repeat split. }
  assert (Hb : exists between,
            [catchersStore_Store (generated_extra env);
             jsonClient_Send (Request_set_Extra req (generated_extra env));
             wait_catcher (catchTimeout client)]
              ++ [successMsgStore_Store (Id m); wait_successCatcher (1 * Second)]
              ++ [successMsgStore_Delete (Id m);
                  catchersStore_Delete (generated_extra env)]
            = [catchersStore_Store (generated_extra env);
               jsonClient_Send {| req_Type := req_Type req;
                                  req_Extra := generated_extra env;
                                  req_Data := req_Data req |};
               wait_catcher (catchTimeout client)]
                ++ between ++ [catchersStore_Delete (generated_extra env)]
            /\ Forall (fun e => forall sent, e <> jsonClient_Send sent) between).
  { exists [successMsgStore_Store (Id m); wait_successCatcher (1 * Second);
            successMsgStore_Delete (Id m)].
    split; [reflexivity|]. repeat constructor; discriminate. }
  destruct (select_with_timeout (on_successCatcher env) _ _) as [modResponse|];
    [destruct (UnmarshalUpdateMessageSendSucceeded _) as [m2|message]|];
    (split; [exact Hb|]); right; eexists; exists response; repeat split.
Qed.

(** X16: with the patch switched off, as [WithoutSendMessagePatch] does,
    the dispatcher leaves the secondary store as it is on every response,
    and [Send] returns the response it receives as it is, without
    consulting a decoder and without a secondary entry. *)
Theorem patch_switched_off {codec : Codec} (client : Client) :
  DisablePatch client = true ->
  (forall pendingUpdateType response,
     successMsgStore (final (processResponse pendingUpdateType client response))
     = successMsgStore client)
  /\ (forall req env,
        Send client req env
        = (match select_with_timeout (on_catcher env) (catchTimeout client)
                   (tie_catcher env) with
           | Received response => (Some response, None)
           | TimedOut => (None, Some (errors_New "response catching timeout"))
           end,
           [catchersStore_Store (generated_extra env);
            jsonClient_Send (Request_set_Extra req (generated_extra env));
            wait_catcher (catchTimeout client);
            catchersStore_Delete (generated_extra env)]))
  /\ (forall (other : Codec) req env,
        Send (codec := other) client req env = Send client req env).
Proof.
  intros Hoff. split; [|split].
  - intros pendingUpdateType response.
    destruct (to_catcher_frame client response) as (_ & _ & Hs0 & Hd0 & _).
    destruct (UnmarshalType (resp_Data response)) as [typ|message] eqn:Hd.
    + destruct (processResponse_decoded pendingUpdateType client response typ Hd)
        as (client1 & Hs & ->).
      destruct (to_pendingResp_frame pendingUpdateType client1 response typ)
        as (_ & _ & _ & Hs2 & _).
      destruct (to_listeners_frame
                  (to_pendingResp pendingUpdateType client1 response typ) typ)
        as (_ & _ & Hs3 & _).
      rewrite Hs3, Hs2, <- Hs0.
      unfold to_successCatcher in Hs. rewrite Hd0, Hoff in Hs. simpl in Hs.
      injection Hs as <-. reflexivity.
    + rewrite (processResponse_undecoded pendingUpdateType client response message Hd).
      exact Hs0.
  - intros req env. unfold Send. rewrite Hoff. simpl.
    destruct (select_with_timeout _ _ _); reflexivity.
  - intros other req env. unfold Send. rewrite Hoff. simpl.
    destruct (select_with_timeout _ _ _); reflexivity.
Qed.

(** A client made with [WithoutSendMessagePatch]: the answer to a
    sendMessage request comes back with its pending marker. *)
Lemma patch_switched_off_witness :
  let client := NewClient [WithoutSendMessagePatch] in
  let answer := Sample.response "message" "call-1" Sample.pending_message in
  let event := Sample.response "updateMessageSendSucceeded" EmptyString
                 Sample.send_succeeded in
  let env := {| generated_extra := "call-1";
                on_catcher := Some (2 * Second, answer);
                on_successCatcher := Some (30 * Millisecond, event);
                tie_catcher := true; tie_successCatcher := true |} in
  (Send (codec := Sample.codec) client Sample.sendMessage env).1 = (Some answer, None).
Proof.
  intros client answer event env.
  destruct (patch_switched_off (codec := Sample.codec) client eq_refl) as (_ & H & _).
  rewrite (H Sample.sendMessage env). reflexivity.
Defined.
